(** * IDPConformerGenerator: geometry kernel, torsion calculator,
      chain builder, clash validator and the small formatters around them

    Shallow embedding of
      - [src/idpconfgen/libs/libcalc.py]  (make_axis_vectors, rotation_to_plane,
        make_coord, make_coord_from_angles, calc_torsion_angles),
      - [src/idpconfgen/cli_build.py]     (the seed and the growth loop of main,
        generate_atom_labels, generate_residue_numbers),
      - [alphas/clash_validator.py]       (ClashValidator),
      - [src/idpconfgen/libs/libpdb.py]   (format_atom_name, format_chainid,
        is_pdb),
      - [src/idpconfgen/libs/libmulticore.py] (the cmd_exec setter and
        prepare_cmd of SubprocessTask),
      - [alphas/filtering_questions.py]   (Filter.return_loops).

    NumPy's float64 is idealised as the real numbers [R]; an array of shape
    (3,) is a [vec3], an array of shape (n, 3) is a [list vec3] and an
    exception is an explicit error value. *)

From Stdlib Require Import Reals Lra Lia List Ascii.
From stdpp Require Import list strings gmap.

Open Scope R_scope.

(** ** Vectors of shape (3,) and matrices of shape (3, 3) *)

Module Vec.

Record vec3 : Type := mk3 { vx : R; vy : R; vz : R }.

Definition zero3 : vec3 := mk3 0 0 0.

(** [np.subtract(a, b)], [a + b], [-a] *)
Definition sub (a b : vec3) : vec3 :=
  mk3 (vx a - vx b) (vy a - vy b) (vz a - vz b).

Definition add (a b : vec3) : vec3 :=
  mk3 (vx a + vx b) (vy a + vy b) (vz a + vz b).

Definition neg (a : vec3) : vec3 := mk3 (- vx a) (- vy a) (- vz a).

(** [s * a] and [a / s], component by component *)
Definition scale (s : R) (a : vec3) : vec3 :=
  mk3 (s * vx a) (s * vy a) (s * vz a).

Definition divs (a : vec3) (s : R) : vec3 :=
  mk3 (vx a / s) (vy a / s) (vz a / s).

(** [np.cross(a, b)] *)
Definition cross (a b : vec3) : vec3 :=
  mk3 (vy a * vz b - vz a * vy b)
      (vz a * vx b - vx a * vz b)
      (vx a * vy b - vy a * vx b).

(** [np.dot(a, b)] on two vectors *)
Definition dot (a b : vec3) : R := vx a * vx b + vy a * vy b + vz a * vz b.

Definition sumsq (a : vec3) : R := vx a * vx a + vy a * vy a + vz a * vz a.

(** [np.linalg.norm(a)] on one vector *)
Definition norm (a : vec3) : R := sqrt (sumsq a).

(** A (3, 3) array, by rows. *)
Record mat3 : Type := mkM { row0 : vec3; row1 : vec3; row2 : vec3 }.

Definition AXIS_111 : mat3 := mkM (mk3 1 0 0) (mk3 0 1 0) (mk3 0 0 1).

Definition col0 (m : mat3) : vec3 := mk3 (vx (row0 m)) (vx (row1 m)) (vx (row2 m)).
Definition col1 (m : mat3) : vec3 := mk3 (vy (row0 m)) (vy (row1 m)) (vy (row2 m)).
Definition col2 (m : mat3) : vec3 := mk3 (vz (row0 m)) (vz (row1 m)) (vz (row2 m)).

(** [m.T] *)
Definition transpose (m : mat3) : mat3 := mkM (col0 m) (col1 m) (col2 m).

(** [np.dot(v, m)] for a vector and a matrix: entry j is sum_i v[i] * m[i][j] *)
Definition vec_mat (v : vec3) (m : mat3) : vec3 :=
  mk3 (dot v (col0 m)) (dot v (col1 m)) (dot v (col2 m)).

(** [np.dot(a, b)] for two matrices *)
Definition mat_mul (a b : mat3) : mat3 :=
  mkM (vec_mat (row0 a) b) (vec_mat (row1 a) b) (vec_mat (row2 a) b).

End Vec.

(** ** libcalc.py: the geometry kernel *)

Module Libcalc.
Import Vec.

(** [if len > 0.0: v /= len], with [len = np.linalg.norm(v)] *)
Definition normalize_in_place (v : vec3) : vec3 :=
  let len := norm v in
  if Rlt_dec 0 len then divs v len else v.

(** [make_axis_vectors(A, B, C)]: both cross products are taken from the
    raw [AB_vect]; the three vectors are normalised afterwards, each on its
    own, and only when its length is positive.  Returns
    [(parallel_ABC, AB_vect, perpendicular)]. *)
Definition make_axis_vectors (A B C : vec3) : vec3 * vec3 * vec3 :=
  let AB_vect := sub A B in
  let parallel_ABC := cross AB_vect (sub C B) in
  let perpendicular := cross AB_vect parallel_ABC in
  let AB_vect := normalize_in_place AB_vect in
  let parallel_ABC := normalize_in_place parallel_ABC in
  let perpendicular := normalize_in_place perpendicular in
  (parallel_ABC, AB_vect, perpendicular).

(** [rotation_to_plane(A, B, C)] *)
Definition rotation_to_plane (A B C : vec3) : mat3 :=
  let '(parallel_ABC, AB_vect, perpendicular) := make_axis_vectors A B C in
  let b := mkM AB_vect (neg perpendicular) parallel_ABC in
  let v := AXIS_111 in
  transpose (mat_mul b v).

(** [make_coord_from_angles(theta, phi, distance)] *)
Definition make_coord_from_angles (theta phi distance : R) : vec3 :=
  mk3 (distance * cos phi)
      (distance * sin phi * cos theta)
      (distance * sin phi * sin theta).

(** [make_coord(theta, phi, distance, parent, xaxis, yaxis)] *)
Definition make_coord (theta phi distance : R) (parent xaxis yaxis : vec3) : vec3 :=
  let new_coord := make_coord_from_angles theta phi distance in
  let rotation := rotation_to_plane parent xaxis yaxis in
  let new_coord := vec_mat new_coord (transpose rotation) in
  add new_coord parent.

(** Three points on one line, or with the first two coincident. *)
Definition collinear (A B C : vec3) : Prop :=
  A = B \/ exists t : R, sub C B = scale t (sub A B).

(** *** calc_torsion_angles *)

(** [np.arctan2(y, x)]: the angle of the point (x, y), in (-pi, pi]. *)
Definition arctan2 (y x : R) : R :=
  if Rlt_dec 0 x then atan (y / x)
  else if Rlt_dec x 0 then
    (if Rle_dec 0 y then atan (y / x) + PI else atan (y / x) - PI)
  else if Rlt_dec 0 y then PI / 2
  else if Rlt_dec y 0 then - (PI / 2)
  else 0.

(** [np.linalg.norm(m)] on a whole (n, 3) array, no [axis] given: the
    Frobenius norm, one scalar for all the rows. *)
Definition norm_all (m : list vec3) : R :=
  sqrt (foldr (fun v acc => sumsq v + acc) 0 m).

(** [m / s] for a scalar [s], [a[1:]], [a[:-1]] and [a[1:-1]] *)
Definition div_all (m : list vec3) (s : R) : list vec3 :=
  map (fun v => divs v s) m.

Definition from1 {A} (a : list A) : list A := drop 1 a.
Definition upto_last {A} (a : list A) : list A := take (length a - 1) a.
Definition inner {A} (a : list A) : list A := drop 1 (take (length a - 1) a).

(** [calc_torsion_angles(coords)]; [None] is the AssertionError of
    [assert coords.shape[0] > 3].  The rows of an (n, 3) array have three
    components by their type, which is the second assertion. *)
Definition calc_torsion_angles (coords : list vec3) : option (list R) :=
  if decide (3 < length coords)%nat then
    let q_vecs := zip_with sub (from1 coords) (upto_last coords) in
    let cross_ := zip_with cross (upto_last q_vecs) (from1 q_vecs) in
    let unitary := div_all cross_ (norm_all cross_) in
    let u0 := upto_last unitary in
    let u1 := from1 unitary in
    let u3 := div_all (inner q_vecs) (norm_all (inner q_vecs)) in
    let u2 := zip_with cross u3 u1 in
    let cos_theta := zip_with dot u0 u1 in
    let sin_theta := zip_with dot u0 u2 in
    Some (map Ropp (zip_with arctan2 sin_theta cos_theta))
  else None.

(** The torsion angles as the specification words them: one signed dihedral
    angle per four consecutive atoms, from the bond vectors
    [q_k = coords[k+1] - coords[k]], the per-bond unit normals
    [u_k = normalize(q_k x q_{k+1})], the unit vector of the central bond,
    and [arctan2] of the two projections. *)
Definition unit_vector (v : vec3) : vec3 := divs v (norm v).

Definition dihedral_spec (p0 p1 p2 p3 : vec3) : R :=
  let q0 := sub p1 p0 in
  let q1 := sub p2 p1 in
  let q2 := sub p3 p2 in
  let u0 := unit_vector (cross q0 q1) in
  let u1 := unit_vector (cross q1 q2) in
  let u3 := unit_vector q1 in
  let u2 := cross u3 u1 in
  - arctan2 (dot u0 u2) (dot u0 u1).

Fixpoint torsion_angles_spec (coords : list vec3) : list R :=
  match coords with
  | p0 :: ((p1 :: p2 :: p3 :: _) as rest) =>
      dihedral_spec p0 p1 p2 p3 :: torsion_angles_spec rest
  | _ => []
  end.

End Libcalc.

(** ** cli_build.py: the seed and the growth loop of [main] *)

Module CliBuild.
Import Vec.

(** The constants that [main] imports from [idpconfgen.core.definitions]
    (bond lengths and bend angles).  Their values are not fixed here: they
    are the fields of a record handed to the builder. *)
Record BondGeometry : Type := mkGeometry {
  distance_N_CA : R;
  distance_CA_C : R;
  distance_C_Np1 : R;
  average_N_CA_C : R;
  average_CA_C_Np1 : R;
  average_Cm1_N_CA : R
}.

(** [itertools.cycle(items)]: the saved items and the number of [next]
    calls made so far. *)
Record cycle : Type := mkCycle { c_items : list R; c_pos : nat }.

Definition cycle_of (items : list R) : cycle := mkCycle items 0.

(** [next(c)]; [None] is StopIteration, raised only over an empty list. *)
Definition next (c : cycle) : option (R * cycle) :=
  match c_items c !! (c_pos c mod length (c_items c))%nat with
  | Some x => Some (x, mkCycle (c_items c) (S (c_pos c)))
  | None => None
  end.

(** The local variables of [main] that the growth loop reads and writes:
    the backbone buffer [bb] (an array of fixed length), the write cursor
    [i] and the two cycles. *)
Record build_state : Type := mkState {
  bb : list vec3;
  i : nat;
  bond_lens : cycle;
  bond_bend : cycle
}.

(** How the body of [for torsion in agls] ends. *)
Inductive outcome : Type :=
| Normal (s : build_state)        (* runs to its end *)
| IndexError (s : build_state)    (* raises IndexError, caught by [except] *)
| Uncaught.                       (* raises something the [try] does not catch *)

(** How [main] ends. *)
Inductive exit : Type :=
| Saved (bb : list vec3)   (* leaves the loop by [break] and saves [bb] *)
| Crashed.                 (* an exception leaves [main] *)

(** [angles[sl, :]] for [sl = slice(start, stop)], [a.ravel()] and [a[1:-2]] *)
Definition rows_of {A} (angles : list A) (sl : nat * nat) : list A :=
  take (snd sl - fst sl) (drop (fst sl) angles).

Definition ravel (rows : list (list R)) : list R := concat rows.

Definition slice_1_m2 {A} (a : list A) : list A :=
  drop 1 (take (length a - 2) a).

(** [np.sum(np.isin(atom_labels, ('N', 'CA', 'C')))] *)
Definition is_backbone (label : string) : bool :=
  bool_decide (label = "N"%string \/ label = "CA"%string \/ label = "C"%string).

Definition count_backbone (atom_labels : list string) : nat :=
  length (filter (fun l => is_backbone l = true) atom_labels).

Section Build.

Variable g : BondGeometry.

(** [make_coord_Q(v1, v2, v3, distance, bend, torsion)] is imported from
    libcalc; libcalc.py as embedded above does not define it, and the
    builder is parametric in it. *)
Variable make_coord_Q : vec3 -> vec3 -> vec3 -> R -> R -> R -> vec3.

(** The aligned torsion database, one row of angles per residue, the
    slices found by the regular expressions, and the index that the k-th
    call of [random.choice] draws. *)
Variable angles : list (list R).
Variable slices : list (nat * nat).
Variable RC : nat -> nat.

Definition bond_lens_items : list R :=
  [distance_C_Np1 g; distance_N_CA g; distance_CA_C g].

Definition bond_bend_items : list R :=
  [PI - average_CA_C_Np1 g; PI - average_Cm1_N_CA g; PI - average_N_CA_C g].

(** The seed: [bb = np.zeros((n, 3))], the CA on the x axis, the C from
    [make_coord_Q]; a buffer shorter than three rows raises IndexError
    outside any [try]. *)
Definition seed (n : nat) : option build_state :=
  let bb0 := replicate n zero3 in
  if decide (1 < n)%nat then
    let bb1 := <[1%nat := mk3 (distance_N_CA g) 0 0]> bb0 in
    match bb1 !! 0%nat, bb1 !! 1%nat with
    | Some b0, Some b1 =>
        let c := make_coord_Q (mk3 0 (distance_N_CA g) 0) b0 b1
                   (distance_CA_C g) (PI - average_N_CA_C g) 0 in
        if decide (2 < n)%nat then
          Some (mkState (<[2%nat := c]> bb1) 3
                  (cycle_of bond_lens_items) (cycle_of bond_bend_items))
        else None
    | _, _ => None
    end
  else None.

(** One pass of the body of the [for]:
    [bb[i, :] = make_coord_Q(bb[i-3, :], bb[i-2, :], bb[i-1, :],
                             next(bond_lens), next(bond_bend), torsion)]
    then [i += 1].  The right-hand side is evaluated first, so both cycles
    have advanced when the store raises IndexError.  The cursor is at
    least 3 in every state the loop reaches. *)
Definition place_next (s : build_state) (torsion : R) : outcome :=
  match bb s !! (i s - 3)%nat, bb s !! (i s - 2)%nat, bb s !! (i s - 1)%nat with
  | Some v1, Some v2, Some v3 =>
      match next (bond_lens s) with
      | None => Uncaught
      | Some (len, lens') =>
          match next (bond_bend s) with
          | None => Uncaught
          | Some (bend, bends') =>
              let c := make_coord_Q v1 v2 v3 len bend torsion in
              if decide (i s < length (bb s))%nat then
                Normal (mkState (<[i s := c]> (bb s)) (S (i s)) lens' bends')
              else
                IndexError (mkState (bb s) (i s) lens' bends')
          end
      end
  | _, _, _ => IndexError s
  end.

(** [for torsion in agls: ...] inside the [try] *)
Fixpoint run_fragment (agls : list R) (s : build_state) : outcome :=
  match agls with
  | [] => Normal s
  | torsion :: rest =>
      match place_next s torsion with
      | Normal s' => run_fragment rest s'
      | o => o
      end
  end.

(** [agls = angles[RC(slices), :].ravel()[1:-2]] at the k-th draw;
    [None] is the IndexError of [random.choice] on an empty sequence,
    raised outside the [try]. *)
Definition draw (k : nat) : option (list R) :=
  match slices !! (RC k mod length slices)%nat with
  | Some sl => Some (slice_1_m2 (ravel (rows_of angles sl)))
  | None => None
  end.

(** [while True: ...], with the number of draws bounded by [fuel];
    [None] means the loop is still running after [fuel] draws. *)
Fixpoint grow (fuel k : nat) (s : build_state) : option exit :=
  match fuel with
  | O => None
  | S fuel' =>
      match draw k with
      | None => Some Crashed
      | Some agls =>
          match run_fragment agls s with
          | Normal s' => grow fuel' (S k) s'
          | IndexError s' => Some (Saved (bb s'))
          | Uncaught => Some Crashed
          end
      end
  end.

(** The torsion angles of [m] draws in a row, from the k-th one on. *)
Fixpoint drawn_torsions (m k : nat) : list R :=
  match m with
  | O => []
  | S m' => default [] (draw k) ++ drawn_torsions m' (S k)
  end.

(** [main], from the atom labels of the input sequence on. *)
Definition main (fuel : nat) (atom_labels : list string) : option exit :=
  match seed (count_backbone atom_labels) with
  | None => Some Crashed
  | Some s0 => grow fuel 0 s0
  end.

End Build.

(** What holds of every state that the loop of [main] reaches: the cycles
    are the two that [main] creates, [next] was called equally often on
    both, and the cursor is at least 3 and at most the length of [bb]. *)
Definition loop_invariant (g : BondGeometry) (s : build_state) : Prop :=
  c_items (bond_lens s) = bond_lens_items g /\
  c_items (bond_bend s) = bond_bend_items g /\
  c_pos (bond_lens s) = c_pos (bond_bend s) /\
  (3 <= i s <= length (bb s))%nat.

(** [a[1:-1]]: a sequence without its first and its last entry. *)
Definition slice_1_m1 {A} (a : list A) : list A :=
  drop 1 (take (length a - 1) a).

(** The 3-cycle of (bond length, bend angle) pairs as the specification
    words it: {C->N bond / C-N-CA-derived bend}, {N->CA bond / N-CA-C bend},
    {CA->C bond / CA-C-N bend}, the bend angles handed over as their
    complement to pi. *)
Definition claimed_pairs (g : BondGeometry) : list (R * R) :=
  [(distance_C_Np1 g, PI - average_Cm1_N_CA g);
   (distance_N_CA g, PI - average_N_CA_C g);
   (distance_CA_C g, PI - average_CA_C_Np1 g)].

(** The pairs that the two cycles of [main] hand out together. *)
Definition cycle_pairs (g : BondGeometry) : list (R * R) :=
  zip (bond_lens_items g) (bond_bend_items g).

(** Modelled from the spec: [make_coord_Q] is not defined in libcalc.py.
    The specification has one placement operation, placeAtom(theta, phi,
    distance, parent, xAxisPoint, yAxisPoint), which is [make_coord], and
    the builder calls it on the three most recently placed atoms with the
    new bond to the last of them: parent = v3, xaxis = v2, yaxis = v1,
    theta = bend, phi = torsion. *)
Definition place_with_make_coord (v1 v2 v3 : vec3) (distance bend torsion : R) : vec3 :=
  Libcalc.make_coord bend torsion distance v3 v2 v1.

(** Sample constants, of the size of a peptide backbone (Angstrom, radians). *)
Definition sample_geometry : BondGeometry :=
  mkGeometry 1.458 1.525 1.329 1.937 2.035 2.124.

(** *** generate_atom_labels and generate_residue_numbers *)

(** [for residue in input_seq]: the characters of a str, each a str. *)
Fixpoint characters (s : string) : list string :=
  match s with
  | EmptyString => []
  | String c rest => String c EmptyString :: characters rest
  end.

(** The loop of [generate_atom_labels]: [labels.extend(AL[residue])];
    [None] is the KeyError of a residue that is not a key of [AL]. *)
Fixpoint extend_labels (AL : gmap string (list string))
    (residues labels : list string) : option (list string) :=
  match residues with
  | [] => Some labels
  | residue :: rest =>
      match AL !! residue with
      | None => None
      | Some residue_labels => extend_labels AL rest (labels ++ residue_labels)
      end
  end.

(** [generate_atom_labels(input_seq, AL)] *)
Definition generate_atom_labels (input_seq : string)
    (AL : gmap string (list string)) : option (list string) :=
  extend_labels AL (characters input_seq) [].

(** The loop of [generate_residue_numbers]:
    [if al == 'N': start += 1] and then [residues.append(start)]. *)
Fixpoint number_atoms (atom_labels : list string) (start : Z) : list Z :=
  match atom_labels with
  | [] => []
  | al :: rest =>
      let start := if decide (al = "N"%string) then (start + 1)%Z else start in
      start :: number_atoms rest start
  end.

(** [generate_residue_numbers(atom_labels, start)]; [None] is the
    IndexError of [atom_labels[0]] on an empty list. *)
Definition generate_residue_numbers (atom_labels : list string) (start : Z)
    : option (list Z) :=
  match atom_labels with
  | [] => None
  | first :: _ =>
      let start := if decide (first = "N"%string) then (start - 1)%Z else start in
      Some (number_atoms atom_labels start)
  end.

(** How many of the labels are 'N'. *)
Definition count_N (atom_labels : list string) : nat :=
  length (filter (fun al => al = "N"%string) atom_labels).

End CliBuild.

(** ** alphas/clash_validator.py *)

Module ClashValidator.
Import Vec.

(** A residue is a dict from atom names to coordinates; the methods read it
    only through [np.array(list(atom.values()))], the coordinates in
    insertion order.  A chain is a list of residues. *)
Abbreviation residue := (list vec3) (only parsing).
Abbreviation chain := (list (list vec3)) (only parsing).
Abbreviation matrix := (list (list R)) (only parsing).

(** The instance: [self.clashes = 0] in [__init__]. *)
Record validator : Type := mkValidator { clashes : Z }.

Definition init : validator := mkValidator 0.

Inductive exn : Type := ValueError | IndexError.

Inductive result : Type :=
| Return (b : bool)
| Raise (e : exn).

(** A method: from the instance before the call to the value it returns
    and the instance after the call. *)
Definition method (A : Type) : Type := validator -> A * validator.

Definition Rltb (x y : R) : bool := if Rlt_dec x y then true else false.

Definition VDW : list R := [1.55; 1.7; 1.7; 1.52].

(** [np.add.outer(a, b)] *)
Definition add_outer (a b : list R) : matrix :=
  map (fun x => map (fun y => x + y) b) a.

Definition allowed_distances : matrix := add_outer VDW VDW.

(** The Euclidean metric of [scipy.spatial.distance.cdist]. *)
Definition euclidean (u v : vec3) : R := norm (sub u v).

(** [distance.cdist(XA, XB, 'euclidean')]; an empty residue is a 1-D array
    of shape (0,), which cdist refuses with ValueError ([None]). *)
Definition cdist (XA XB : list vec3) : option matrix :=
  match XA, XB with
  | [], _ | _, [] => None
  | _, _ => Some (map (fun u => map (fun v => euclidean u v) XB) XA)
  end.

(** [np.concatenate([np.array(list(atom.values())) for atom in w])]:
    ValueError ([None]) on an empty list; an empty residue among the
    arrays makes either the concatenation or the following [cdist] raise
    ValueError, which is all that [clash_found_vectorized] does with it. *)
Definition concatenate (w : list residue) : option (list vec3) :=
  match w with
  | [] => None
  | _ => if existsb (fun r => bool_decide (r = [])) w then None
         else Some (concat w)
  end.

(** [math.ceil(x / 4)] *)
Definition ceil_div4 (x : nat) : nat := ((x + 3) / 4)%nat.

(** [np.tile(m, (r, c))], [m[:, :y]], [m[:-1]] and [m.T] *)
Definition tile (m : matrix) (r c : nat) : matrix :=
  concat (replicate r (map (fun row => concat (replicate c row)) m)).

Definition columns_upto (y : nat) (m : matrix) : matrix := map (take y) m.

Definition rows_upto_last (m : matrix) : matrix := take (length m - 1) m.

Definition entry (m : matrix) (r c : nat) : R := nth c (nth r m []) 0.

Definition shape (m : matrix) : nat * nat :=
  (length m, length (nth 0 m [])).

Definition transpose (m : matrix) : matrix :=
  map (fun c => map (fun r => entry m r c) (seq 0 (fst (shape m))))
      (seq 0 (snd (shape m))).

(** NumPy broadcasting of one axis: equal lengths, or one of them is 1. *)
Definition broadcast_dim (n m : nat) : option nat :=
  if decide (n = m) then Some n
  else if decide (n = 1%nat) then Some m
  else if decide (m = 1%nat) then Some n
  else None.

Definition broadcast_index (n k : nat) : nat :=
  if decide (n = 1%nat) then 0%nat else k.

(** [a < b] on two 2-D arrays, with broadcasting; [None] is the ValueError
    "operands could not be broadcast together". *)
Definition less (a b : matrix) : option (list (list bool)) :=
  let '(ra, ca) := shape a in
  let '(rb, cb) := shape b in
  match broadcast_dim ra rb, broadcast_dim ca cb with
  | Some r, Some c =>
      Some (map (fun k =>
              map (fun l =>
                Rltb (entry a (broadcast_index ra k) (broadcast_index ca l))
                     (entry b (broadcast_index rb k) (broadcast_index cb l)))
                (seq 0 c))
              (seq 0 r))
  | _, _ => None
  end.

(** [for row in clashes: if any(row): return True] finds a true entry. *)
Definition any_row (clashes_ : list (list bool)) : bool :=
  existsb (fun row => existsb (fun b : bool => b) row) clashes_.

(** The body of [clash_found_vectorized]. *)
Definition vectorized (current_chain last_chain : chain) : result :=
  match concatenate (take (length last_chain - 2) last_chain),
        concatenate (drop (length last_chain + 1) current_chain) with
  | Some last_chain_vector, Some current_chain_vector =>
      match cdist last_chain_vector current_chain_vector with
      | None => Raise ValueError
      | Some distances =>
          let '(x, y) := shape distances in
          let allowed :=
            columns_upto y (tile allowed_distances (ceil_div4 x) (ceil_div4 y)) in
          match less distances allowed with
          | None => Raise ValueError
          | Some clashes_ => Return (any_row clashes_)
          end
      end
  | _, _ => Raise ValueError
  end.

Definition clash_found_vectorized (self : validator)
    (current_chain last_chain : chain) : result * validator :=
  (vectorized current_chain last_chain, self).

(** The [try] block of [clash_found] for one pair of residues: the value is
    [Some true] when it returns True, [Some false] when it ends without
    returning, [None] when it raises ValueError. *)
Definition try_block (previous_coords new_coords : residue) : option bool :=
  match cdist previous_coords new_coords with
  | None => None
  | Some distances =>
      match less distances allowed_distances with
      | None => None
      | Some clashes_ => Some (any_row clashes_)
      end
  end.

(** The [except ValueError] block: the same against
    [allowed_distances[:-1].T]; a ValueError raised here leaves the method. *)
Definition except_block (previous_coords new_coords : residue) : option bool :=
  match cdist previous_coords new_coords with
  | None => None
  | Some distances =>
      match less distances (transpose (rows_upto_last allowed_distances)) with
      | None => None
      | Some clashes_ => Some (any_row clashes_)
      end
  end.

Definition residue_pair (previous_coords new_coords : residue) : result :=
  match try_block previous_coords new_coords with
  | Some b => Return b
  | None =>
      match except_block previous_coords new_coords with
      | Some b => Return b
      | None => Raise ValueError
      end
  end.

(** [for new_index in range(len(last_chain)+1, len(current_chain))];
    [Return false] means that the loop ended without returning. *)
Fixpoint new_loop (current_chain : chain) (previous_coords : residue)
    (new_indices : list nat) : result :=
  match new_indices with
  | [] => Return false
  | new_index :: rest =>
      match current_chain !! new_index with
      | None => Raise IndexError
      | Some new_coords =>
          match residue_pair previous_coords new_coords with
          | Return false => new_loop current_chain previous_coords rest
          | r => r
          end
      end
  end.

(** [for seen_index in range(0, len(last_chain)-2)] *)
Fixpoint seen_loop (current_chain last_chain : chain)
    (seen_indices new_indices : list nat) : result :=
  match seen_indices with
  | [] => Return false
  | seen_index :: rest =>
      match last_chain !! seen_index with
      | None => Raise IndexError
      | Some previous_coords =>
          match new_loop current_chain previous_coords new_indices with
          | Return false => seen_loop current_chain last_chain rest new_indices
          | r => r
          end
      end
  end.

(** [range(a, b)] *)
Definition range (a b : nat) : list nat := seq a (b - a).

(** The body of [clash_found]. *)
Definition incremental (current_chain last_chain : chain) : result :=
  seen_loop current_chain last_chain
    (range 0 (length last_chain - 2))
    (range (length last_chain + 1) (length current_chain)).

Definition clash_found (self : validator)
    (current_chain last_chain : chain) : result * validator :=
  (incremental current_chain last_chain, self).

(** The two windows that the methods read. *)
Definition settled_window (last_chain : chain) : list residue :=
  take (length last_chain - 2) last_chain.

Definition new_window (current_chain last_chain : chain) : list residue :=
  drop (length last_chain + 1) current_chain.

(** The loops of [clash_found] over the residues of the two windows
    themselves instead of over their indices. *)
Fixpoint scan_new (previous_coords : residue) (news : list residue) : result :=
  match news with
  | [] => Return false
  | new_coords :: rest =>
      match residue_pair previous_coords new_coords with
      | Return false => scan_new previous_coords rest
      | r => r
      end
  end.

Fixpoint scan_seen (seen news : list residue) : result :=
  match seen with
  | [] => Return false
  | previous_coords :: rest =>
      match scan_new previous_coords news with
      | Return false => scan_seen rest news
      | r => r
      end
  end.

(** The van der Waals radius of the k-th atom of a residue (N, CA, C, O). *)
Definition radius (k : nat) : R := nth k VDW 0.

(** A window in canonical form: every residue has its four atoms N, CA, C,
    O, the last one possibly only N, CA, C. *)
Fixpoint canonical (w : list residue) : Prop :=
  match w with
  | [] => True
  | [r] => length r = 4%nat \/ length r = 3%nat
  | r :: rest => length r = 4%nat /\ canonical rest
  end.

End ClashValidator.

(** ** Python's str, as far as the functions below use it *)

Module PyStr.

(** A str is the list of its characters; a character is a code point
    below 256. *)
Abbreviation str := (list ascii) (only parsing).

(** The characters that [str.isspace], [str.strip()] and [str.split()]
    take for whitespace: tab to carriage return, the four separators
    0x1c-0x1f, the blank, 0x85 and 0xa0. *)
Definition is_space (c : ascii) : bool :=
  let n := nat_of_ascii c in
  ((9 <=? n) && (n <=? 13)) || ((28 <=? n) && (n <=? 32))
  || (n =? 133) || (n =? 160).

(** [s.lstrip()], [s.rstrip()] and [s.strip()] *)
Fixpoint lstrip (s : str) : str :=
  match s with
  | [] => []
  | c :: rest => if is_space c then lstrip rest else s
  end.

Definition rstrip (s : str) : str := rev (lstrip (rev s)).

Definition strip (s : str) : str := rstrip (lstrip s).

(** [s.split()]: the words between runs of whitespace; [word] is the word
    being read, last character first. *)
Fixpoint split_words (s : str) (word : str) : list str :=
  match s with
  | [] => match word with [] => [] | _ => [rev word] end
  | c :: rest =>
      if is_space c then
        match word with
        | [] => split_words rest []
        | _ => rev word :: split_words rest []
        end
      else split_words rest (c :: word)
  end.

Definition split (s : str) : list str := split_words s [].

(** [s.startswith(sub)] *)
Fixpoint startswith (s sub : str) : bool :=
  match sub, s with
  | [], _ => true
  | a :: sub', b :: s' => if decide (a = b) then startswith s' sub' else false
  | _ :: _, [] => false
  end.

(** [s.count(sub)]: the occurrences of [sub] in [s] that do not overlap,
    from the left; [skip] characters of an occurrence just counted are
    still to be passed over. *)
Fixpoint count_from (sub s : str) (skip : nat) : nat :=
  match s with
  | [] => 0
  | c :: rest =>
      match skip with
      | S k => count_from sub rest k
      | O => if startswith s sub
             then S (count_from sub rest (length sub - 1))
             else count_from sub rest 0
      end
  end.

Definition count (s sub : str) : nat :=
  match sub with
  | [] => S (length s)
  | _ => count_from sub s 0
  end.

(** ['{:<w}'.format(s)]: [s], then blanks up to the width [w]; a longer
    [s] is left whole. *)
Definition ljust (w : nat) (s : str) : str :=
  s ++ replicate (w - length s) " "%char.

End PyStr.

(** ** libpdb.py: the formatters of the ATOM record and [is_pdb] *)

Module Libpdb.
Import PyStr.

(** [format_atom_name(atom, element)]; [None] is PDBFormatError. *)
Definition format_atom_name (atom element : str) : option str :=
  if bool_decide (element ∈ [["C"]; ["N"]; ["O"]; ["S"]]%char) then
    if decide (length atom < 4)%nat then Some (" "%char :: ljust 3 atom)
    else Some (ljust 4 atom)
  else if decide (length atom = 2%nat) then
    Some (ljust 2 atom ++ [" "; " "]%char)
  else None.

(** [format_chainid(chain)]: [chain.strip()[0]]; [None] is the IndexError
    of an empty string. *)
Definition format_chainid (chain : str) : option str :=
  match strip chain with
  | [] => None
  | c :: _ => Some [c]
  end.

(** [is_pdb(datastr)]: [datastr.count('\nATOM ') > 0] *)
Definition ATOM_line : str := ["010"; "A"; "T"; "O"; "M"; " "]%char.

Definition is_pdb (datastr : str) : bool := (0 <? count datastr ATOM_line)%nat.

End Libpdb.

(** ** libmulticore.py: the command of a SubprocessTask *)

Module Libmulticore.
Import PyStr.

(** What [cmd_exec] is set to: a str or a list of str. *)
Inductive command : Type :=
| CommandStr (s : list ascii)
| CommandList (items : list (list ascii)).

(** The setter of [cmd_exec]: [command.split()]; a list has no [split],
    and every item of it is split instead. *)
Definition set_cmd_exec (c : command) : list str :=
  match c with
  | CommandStr s => split s
  | CommandList items =>
      foldl (fun _cmd_exec iitem => _cmd_exec ++ split iitem) [] items
  end.

(** The [input_] of a task: None, a list or a tuple. *)
Inductive task_input : Type :=
| InputNone
| InputList (l : list (list ascii))
| InputTuple (l : list (list ascii)).

(** [prepare_cmd]: [self.cmd_exec + self.input]; the TypeError of adding
    None or a tuple to a list is caught and leaves [cmd_exec] alone. *)
Definition prepare_cmd (cmd_exec : list str) (input_ : task_input) : list str :=
  match input_ with
  | InputList l => cmd_exec ++ l
  | InputNone | InputTuple _ => cmd_exec
  end.

End Libmulticore.

(** ** alphas/filtering_questions.py: Filter.return_loops *)

Module FilteringQuestions.

Section Filter.

(** The data of a fragment. *)
Context {V : Type}.

(** [not x] for [x] None or an int. *)
Definition falsy (x : option Z) : bool :=
  match x with
  | None => true
  | Some n => bool_decide (n = 0%Z)
  end.

(** [len(fragment) >= lower_bound and len(fragment) <= upper_bound];
    [None] is the TypeError of comparing an int with None. *)
Definition in_bounds (lower_bound upper_bound : option Z) (fragment : string)
    : option bool :=
  match lower_bound with
  | None => None
  | Some lo =>
      if bool_decide (lo <= Z.of_nat (String.length fragment))%Z then
        match upper_bound with
        | None => None
        | Some up => Some (bool_decide (Z.of_nat (String.length fragment) <= up)%Z)
        end
      else Some false
  end.

(** The loop of [__return_loop_ranges] over the items of the dict. *)
Fixpoint loop_ranges (items : list (string * V))
    (lower_bound upper_bound : option Z) (result : gmap string V)
    : option (gmap string V) :=
  match items with
  | [] => Some result
  | (fragment, data) :: rest =>
      match in_bounds lower_bound upper_bound fragment with
      | None => None
      | Some true =>
          loop_ranges rest lower_bound upper_bound (<[fragment := data]> result)
      | Some false => loop_ranges rest lower_bound upper_bound result
      end
  end.

Definition return_loop_ranges (loop_data : gmap string V)
    (lower_bound upper_bound : option Z) : option (gmap string V) :=
  loop_ranges (map_to_list loop_data) lower_bound upper_bound ∅.

(** [Filter.return_loops(lower_bound, upper_bound)], on [self.data["L"]] *)
Definition return_loops (loop_data : gmap string V)
    (lower_bound upper_bound : option Z) : option (gmap string V) :=
  if falsy lower_bound && falsy upper_bound then Some loop_data
  else return_loop_ranges loop_data lower_bound upper_bound.

(** The condition of the loop of [__return_loop_ranges] on an item of the
    dict, with both bounds integers, as a proposition. *)
Definition within (lo up : Z) (item : string * V) : Prop :=
  (lo <= Z.of_nat (String.length item.1) /\
   Z.of_nat (String.length item.1) <= up)%Z.

#[export] Instance within_dec lo up item : Decision (within lo up item).
Proof. unfold within. apply _. Defined.

End Filter.

End FilteringQuestions.

(** ** Concrete inputs used below *)

Module Examples.
Import Vec.

(** Five atoms; the torsion about the bond from the second to the third
    atom is -pi/4. *)
Definition chain5 : list vec3 :=
  [mk3 1 0 0; mk3 0 0 0; mk3 0 1 0; mk3 1 1 1; mk3 1 2 1].

(** A buffer of six atoms after the seed, with the sample constants. *)
Definition start_state : CliBuild.build_state :=
  CliBuild.mkState
    [mk3 0 0 0; mk3 1 0 0; mk3 1 1 0; zero3; zero3; zero3] 3
    (CliBuild.cycle_of (CliBuild.bond_lens_items CliBuild.sample_geometry))
    (CliBuild.cycle_of (CliBuild.bond_bend_items CliBuild.sample_geometry)).

(** A buffer of four atoms whose first three lie on the x axis. *)
Definition degenerate_state : CliBuild.build_state :=
  CliBuild.mkState
    [mk3 0 0 0; mk3 1 0 0; mk3 2 0 0; zero3] 3
    (CliBuild.cycle_of (CliBuild.bond_lens_items CliBuild.sample_geometry))
    (CliBuild.cycle_of (CliBuild.bond_bend_items CliBuild.sample_geometry)).

(** The state that [seed] returns for a buffer of six atoms. *)
Definition seeded (g : CliBuild.BondGeometry) : CliBuild.build_state :=
  CliBuild.mkState
    [zero3; mk3 (CliBuild.distance_N_CA g) 0 0;
     CliBuild.place_with_make_coord
       (mk3 0 (CliBuild.distance_N_CA g) 0) zero3 (mk3 (CliBuild.distance_N_CA g) 0 0)
       (CliBuild.distance_CA_C g) (PI - CliBuild.average_N_CA_C g) 0;
     zero3; zero3; zero3] 3
    (CliBuild.cycle_of (CliBuild.bond_lens_items g))
    (CliBuild.cycle_of (CliBuild.bond_bend_items g)).

(** A database of two residues and the slice that holds both; a database
    of one residue and the slice that holds it; a choice that always
    draws the first slice. *)
Definition two_residues : list (list R) := [[1; 2; 3]; [4; 5; 6]].
Definition both_residues : list (nat * nat) := [(0%nat, 2%nat)].
Definition one_residue : list (list R) := [[1; 2; 3]].
Definition that_residue : list (nat * nat) := [(0%nat, 1%nat)].
Definition first_choice : nat -> nat := fun _ => 0%nat.

(** A residue of four atoms in the plane x = [x], 100 apart from each
    other, and chains made of such residues, 1000 apart. *)
Definition residue_at (x : R) : ClashValidator.residue :=
  [mk3 x 0 0; mk3 x 100 0; mk3 x 200 0; mk3 x 300 0].

Definition last2 : ClashValidator.chain := [residue_at 0; residue_at 1000].
Definition current4 : ClashValidator.chain :=
  [residue_at 0; residue_at 1000; residue_at 2000; residue_at 3000].

(** Three settled residues and two more in the current chain; the N of
    the last residue is 3.1 away from the N of the first one, which is the
    sum of their radii, and every other pair of atoms of these two
    residues is at least 50 apart. *)
Definition boundary_residue : ClashValidator.residue :=
  [mk3 3.1 0 0; mk3 3.1 50 0; mk3 3.1 150 0; mk3 3.1 250 0].

Definition last3 : ClashValidator.chain :=
  [residue_at 0; residue_at 1000; residue_at 2000].
Definition current5 : ClashValidator.chain :=
  [residue_at 0; residue_at 1000; residue_at 2000; residue_at 3000;
   boundary_residue].


(** A table of atom labels with two residues, and a sequence over it. *)
Definition two_letter_table : gmap string (list string) :=
  {[ "G"%string := ["N"; "CA"; "C"; "O"]%string;
     "A"%string := ["N"; "CA"; "C"; "O"; "CB"]%string ]}.

(** A residue without its O, and a settled chain that begins with it. *)
Definition short_residue : ClashValidator.residue :=
  [mk3 0 0 0; mk3 0 100 0; mk3 0 200 0].

Definition last3_short : ClashValidator.chain :=
  [short_residue; residue_at 1000; residue_at 2000].

End Examples.

(** * Properties *)

(** ** Vectors *)

Module VecFacts.
Import Vec.

Lemma sumsq_nonneg (a : vec3) : 0 <= sumsq a.
Proof. unfold sumsq. nra. Qed.

Lemma norm_nonneg (a : vec3) : 0 <= norm a.
Proof. apply sqrt_pos. Qed.

Lemma sumsq_zero (a : vec3) : sumsq a = 0 -> a = zero3.
Proof.
  destruct a as [x y z]. unfold sumsq, zero3. simpl. intros H.
  assert (x = 0) by nra. assert (y = 0) by nra. assert (z = 0) by nra.
  by subst.
Qed.

Lemma norm_zero (a : vec3) : norm a = 0 -> a = zero3.
Proof.
  intros H. apply sumsq_zero. apply sqrt_eq_0; [apply sumsq_nonneg | exact H].
Qed.

Lemma norm_zero3 : norm zero3 = 0.
Proof.
  unfold norm, sumsq, zero3. simpl.
  replace (0 * 0 + 0 * 0 + 0 * 0) with 0 by ring. apply sqrt_0.
Qed.

Lemma mat_mul_AXIS_111 (b : mat3) : mat_mul b AXIS_111 = b.
Proof.
  destruct b as [[a1 a2 a3] [b1 b2 b3] [c1 c2 c3]].
  unfold mat_mul, vec_mat, dot, col0, col1, col2, AXIS_111. simpl.
  f_equal; f_equal; ring.
Qed.

Lemma cross_self (a : vec3) : cross a a = zero3.
Proof. destruct a. unfold cross, zero3. simpl. f_equal; ring. Qed.

Lemma cross_scale_r (a b : vec3) (t : R) : cross a (scale t b) = scale t (cross a b).
Proof. destruct a, b. unfold cross, scale. simpl. f_equal; ring. Qed.

Lemma cross_zero_l (a : vec3) : cross zero3 a = zero3.
Proof. destruct a. unfold cross, zero3. simpl. f_equal; ring. Qed.

Lemma cross_zero_r (a : vec3) : cross a zero3 = zero3.
Proof. destruct a. unfold cross, zero3. simpl. f_equal; ring. Qed.

Lemma scale_zero3 (t : R) : scale t zero3 = zero3.
Proof. unfold scale, zero3. simpl. f_equal; ring. Qed.

End VecFacts.

(** ** The geometry kernel *)

Module LibcalcFacts.
Import Vec VecFacts Libcalc.

Lemma normalize_in_place_zero_len (v : vec3) :
  norm v = 0 -> normalize_in_place v = v /\ v = zero3.
Proof.
  intros H. split; [| by apply norm_zero].
  unfold normalize_in_place. destruct (Rlt_dec 0 (norm v)) as [Hlt | _]; [lra | done].
Qed.

Lemma sub_self (A : vec3) : sub A A = zero3.
Proof. destruct A. unfold sub, zero3. simpl. f_equal; ring. Qed.

Lemma collinear_cross (A B C : vec3) :
  collinear A B C -> cross (sub A B) (sub C B) = zero3.
Proof.
  intros [-> | [t Ht]].
  - rewrite sub_self. apply cross_zero_l.
  - rewrite Ht, cross_scale_r, cross_self. apply scale_zero3.
Qed.

Lemma make_axis_vectors_eq (A B C : vec3) :
  make_axis_vectors A B C =
    (normalize_in_place (cross (sub A B) (sub C B)),
     normalize_in_place (sub A B),
     normalize_in_place (cross (sub A B) (cross (sub A B) (sub C B)))).
Proof. reflexivity. Qed.

(** C8: make_axis_vectors always returns its three vectors; a vector whose
    length is zero is returned as it was computed, and it is the zero
    vector; three collinear points give a normal of length zero. *)
Theorem make_axis_vectors_degenerate (A B C : vec3) :
  exists parallel_ABC AB_vect perpendicular : vec3,
    make_axis_vectors A B C = (parallel_ABC, AB_vect, perpendicular) /\
    (norm (sub A B) = 0 -> AB_vect = sub A B /\ AB_vect = zero3) /\
    (norm (cross (sub A B) (sub C B)) = 0 ->
       parallel_ABC = cross (sub A B) (sub C B) /\ parallel_ABC = zero3) /\
    (norm (cross (sub A B) (cross (sub A B) (sub C B))) = 0 ->
       perpendicular = cross (sub A B) (cross (sub A B) (sub C B)) /\
       perpendicular = zero3) /\
    (collinear A B C -> parallel_ABC = zero3 /\ norm parallel_ABC = 0).
Proof.
  eexists _, _, _. split; [apply make_axis_vectors_eq |].
  repeat split.
  - by apply normalize_in_place_zero_len.
  - destruct (normalize_in_place_zero_len _ H) as [-> E]. exact E.
  - by apply normalize_in_place_zero_len.
  - destruct (normalize_in_place_zero_len _ H) as [-> E]. exact E.
  - by apply normalize_in_place_zero_len.
  - destruct (normalize_in_place_zero_len _ H) as [-> E]. exact E.
  - rewrite (collinear_cross _ _ _ H).
    exact (proj1 (normalize_in_place_zero_len _ norm_zero3)).
  - rewrite (collinear_cross _ _ _ H).
    destruct (normalize_in_place_zero_len _ norm_zero3) as [-> _].
    apply norm_zero3.
Qed.

Lemma make_axis_vectors_degenerate_witness :
  let '(parallel_ABC, _, _) :=
    make_axis_vectors (mk3 0 0 0) (mk3 1 0 0) (mk3 2 0 0) in
  parallel_ABC = zero3.
Proof.
  destruct (make_axis_vectors_degenerate (mk3 0 0 0) (mk3 1 0 0) (mk3 2 0 0))
    as (p & a & q & -> & _ & _ & _ & Hc).
  apply Hc. right. exists (-1). unfold sub, scale. simpl. f_equal; lra.
Defined.

(** make_coord on a degenerate frame: the normal and the perpendicular are
    zero, and what is left of the offset is its first component along the
    parent - xaxis direction. *)
Lemma make_coord_collinear (theta phi distance : R) (parent xaxis yaxis : vec3) :
  collinear parent xaxis yaxis ->
  make_coord theta phi distance parent xaxis yaxis =
    add (scale (distance * cos phi) (normalize_in_place (sub parent xaxis))) parent.
Proof.
  intros H. unfold make_coord, rotation_to_plane.
  rewrite make_axis_vectors_eq, mat_mul_AXIS_111.
  rewrite (collinear_cross _ _ _ H), cross_zero_r.
  rewrite (proj1 (normalize_in_place_zero_len _ norm_zero3)).
  destruct (normalize_in_place (sub parent xaxis)) as [a b c].
  unfold make_coord_from_angles, vec_mat, transpose, col0, col1, col2, dot,
    add, scale, neg, zero3.
  simpl. f_equal; ring.
Qed.

Lemma normalize_in_place_unit_x : normalize_in_place (mk3 1 0 0) = mk3 1 0 0.
Proof.
  unfold normalize_in_place, norm, sumsq. simpl.
  replace (1 * 1 + 0 * 0 + 0 * 0) with 1 by ring. rewrite sqrt_1.
  destruct (Rlt_dec 0 1); [| lra]. unfold divs. simpl. f_equal; lra.
Qed.

(** *** calc_torsion_angles *)

Lemma calc_torsion_angles_length (coords : list vec3) (angles : list R) :
  calc_torsion_angles coords = Some angles ->
  (3 < length coords)%nat /\ length angles = (length coords - 3)%nat.
Proof.
  unfold calc_torsion_angles. destruct (decide _) as [Hlen | ]; [| done].
  intros [= <-]. split; [done |].
  unfold div_all, from1, upto_last, inner.
  repeat (rewrite ?length_map, ?length_zip_with, ?length_take, ?length_drop).
  lia.
Qed.

Lemma calc_torsion_angles_short (coords : list vec3) :
  (length coords <= 3)%nat -> calc_torsion_angles coords = None.
Proof.
  intros H. unfold calc_torsion_angles. destruct (decide _); [lia | done].
Qed.

Lemma arctan2_pos (y x : R) : 0 < x -> arctan2 y x = atan (y / x).
Proof. intros H. unfold arctan2. destruct (Rlt_dec 0 x); [done | lra]. Qed.

Lemma sqrt_sq_pos (x : R) : 0 < x -> sqrt x * sqrt x = x /\ 0 < sqrt x.
Proof.
  intros H. split; [apply sqrt_sqrt; lra | by apply sqrt_lt_R0].
Qed.

Lemma atan_inv_sqrt3_lt : atan (/ sqrt 3) < PI / 4.
Proof.
  rewrite <- atan_1. apply atan_increasing.
  destruct (sqrt_sq_pos 3 ltac:(lra)) as [Hs Hp].
  assert (1 < sqrt 3) by nra.
  rewrite <- Rinv_1. apply Rinv_lt_contravar; lra.
Qed.

(** arctan2 does not change when both arguments are scaled by one positive
    factor. *)
Lemma arctan2_scale (k y x : R) :
  0 < k -> arctan2 (k * y) (k * x) = arctan2 y x.
Proof.
  intros Hk. unfold arctan2.
  assert (Hq : x <> 0 -> k * y / (k * x) = y / x) by (intros; field; lra).
  destruct (Rtotal_order 0 x) as [Hx | [Hx | Hx]].
  - destruct (Rlt_dec 0 (k * x)); [| nra]. destruct (Rlt_dec 0 x); [| lra].
    by rewrite Hq by lra.
  - subst x. rewrite Rmult_0_r.
    destruct (Rlt_dec 0 0); [lra |].
    destruct (Rlt_dec 0 (k * y)), (Rlt_dec 0 y); try nra; try done.
    destruct (Rlt_dec (k * y) 0), (Rlt_dec y 0); try nra; done.
  - destruct (Rlt_dec 0 (k * x)); [nra |]. destruct (Rlt_dec 0 x); [lra |].
    destruct (Rlt_dec (k * x) 0); [| nra]. destruct (Rlt_dec x 0); [| lra].
    rewrite Hq by lra.
    destruct (Rle_dec 0 (k * y)), (Rle_dec 0 y); try nra; try done.
Qed.

Lemma sumsq_pos (a : vec3) : a <> zero3 -> 0 < sumsq a.
Proof.
  intros Ha. destruct (Rle_lt_or_eq_dec _ _ (sumsq_nonneg a)) as [H | H]; [done |].
  exfalso. apply Ha. by apply sumsq_zero.
Qed.

Lemma cross_nonzero_r (a b : vec3) : cross a b <> zero3 -> b <> zero3.
Proof. intros H ->. by rewrite cross_zero_r in H. Qed.

(** X6: on four atoms in general position there is one pair of cross
    products and one central bond, the common factor cancels in arctan2,
    and calc_torsion_angles returns the signed dihedral angle of the four
    atoms. *)
Lemma calc_torsion_angles_four_atoms (p0 p1 p2 p3 : vec3) :
  cross (sub p1 p0) (sub p2 p1) <> zero3 ->
  cross (sub p2 p1) (sub p3 p2) <> zero3 ->
  calc_torsion_angles [p0; p1; p2; p3] = Some [dihedral_spec p0 p1 p2 p3].
Proof.
  intros H0 H1. unfold calc_torsion_angles.
  destruct (decide _) as [_ | Hn]; [| simpl in Hn; lia].
  unfold from1, upto_last, inner, div_all, norm_all, dihedral_spec, unit_vector, norm.
  simpl. do 3 f_equal.
  pose proof (sumsq_pos _ H0) as S0. pose proof (sumsq_pos _ H1) as S1.
  pose proof (sumsq_pos _ (cross_nonzero_r _ _ H0)) as Sq.
  set (c0 := cross (sub p1 p0) (sub p2 p1)) in *.
  set (c1 := cross (sub p2 p1) (sub p3 p2)) in *.
  set (q1 := sub p2 p1) in *.
  rewrite !Rplus_0_r.
  destruct (sqrt_sq_pos _ S0) as [E0 P0]. destruct (sqrt_sq_pos _ S1) as [E1 P1].
  destruct (sqrt_sq_pos _ Sq) as [Eq Pq].
  destruct (sqrt_sq_pos (sumsq c0 + sumsq c1) ltac:(lra)) as [EF PF].
  set (n0 := sqrt (sumsq c0)) in *. set (n1 := sqrt (sumsq c1)) in *.
  set (nq := sqrt (sumsq q1)) in *. set (F := sqrt (sumsq c0 + sumsq c1)) in *.
  etransitivity; [| apply (arctan2_scale (n0 * n1 / (F * F)))].
  - destruct c0 as [a1 a2 a3], c1 as [b1 b2 b3], q1 as [d1 d2 d3].
    unfold dot, divs, cross. simpl. f_equal; field; lra.
  - apply Rdiv_lt_0_compat; nra.
Qed.
Ltac name_sqrt e v :=
  match goal with
  | |- context [sqrt ?a] =>
      lazymatch a with
      | IZR _ => fail
      | _ => replace a with e by lra
      end
  end;
  destruct (sqrt_sq_pos e ltac:(lra)) as [? ?];
  set (v := sqrt e) in *.

Lemma chain5_code_first :
  exists rest, calc_torsion_angles Examples.chain5 = Some (- atan (/ sqrt 3) :: rest).
Proof.
  unfold calc_torsion_angles, Examples.chain5.
  destruct (decide _) as [_ | Hn]; [| simpl in Hn; lia].
  unfold from1, upto_last, inner, div_all, norm_all. simpl.
  eexists. do 3 f_equal.
  unfold dot, divs, cross, sub, sumsq. simpl.
  name_sqrt 5 s5. name_sqrt 3 s3.
  rewrite arctan2_pos.
  - f_equal. field. lra.
  - match goal with |- 0 < ?c => replace c with (/ (s5 * s5)) by (field; lra) end.
    apply Rinv_0_lt_compat. nra.
Qed.

Lemma chain5_spec_first :
  exists rest, torsion_angles_spec Examples.chain5 = - (PI / 4) :: rest.
Proof.
  unfold Examples.chain5. simpl. eexists. f_equal.
  unfold dihedral_spec, unit_vector, norm, dot, divs, cross, sub, sumsq. simpl.
  f_equal.
  repeat match goal with
  | |- context [sqrt ?a] =>
      lazymatch a with
      | IZR _ => fail
      | _ => replace a with 1 by lra
      end
  end.
  rewrite sqrt_1. name_sqrt 2 s2.
  rewrite arctan2_pos.
  - rewrite <- atan_1. f_equal. field. lra.
  - match goal with |- 0 < ?c => replace c with (/ s2) by (field; lra) end.
    by apply Rinv_0_lt_compat.
Qed.

(** C1: on the five atoms of [chain5] the first angle that
    calc_torsion_angles returns is -atan(1/sqrt 3), which is not the signed
    dihedral angle -pi/4 of the first four atoms: the cross products and
    the bond vectors are divided by the norm of their whole array, not each
    by its own length. *)
Theorem calc_torsion_angles_chain5 :
  exists rest rest' : list R,
    calc_torsion_angles Examples.chain5 = Some (- atan (/ sqrt 3) :: rest) /\
    torsion_angles_spec Examples.chain5 = - (PI / 4) :: rest' /\
    - atan (/ sqrt 3) <> - (PI / 4) /\
    calc_torsion_angles Examples.chain5 <> Some (torsion_angles_spec Examples.chain5).
Proof.
  destruct chain5_code_first as [rest Hc], chain5_spec_first as [rest' Hs].
  exists rest, rest'. pose proof atan_inv_sqrt3_lt as Hlt.
  repeat split; [done | done | lra |].
  rewrite Hc, Hs. intros [= E]. lra.
Qed.

(** ** More on the geometry kernel *)

Lemma not_collinear_cross (A B C : vec3) :
  ~ collinear A B C -> cross (sub A B) (sub C B) <> zero3.
Proof.
  intros Hn Hc. apply Hn.
  destruct A as [a1 a2 a3], B as [b1 b2 b3], C as [c1 c2 c3].
  unfold collinear, sub, cross, scale, zero3 in *. simpl in *.
  injection Hc as H1 H2 H3.
  destruct (Req_dec (a1 - b1) 0) as [E1 | N1];
    [destruct (Req_dec (a2 - b2) 0) as [E2 | N2];
      [destruct (Req_dec (a3 - b3) 0) as [E3 | N3] | ] | ].
  - left. f_equal; lra.
  - right. exists ((c3 - b3) / (a3 - b3)).
    f_equal; field_simplify_eq; try done; nra.
  - right. exists ((c2 - b2) / (a2 - b2)).
    f_equal; field_simplify_eq; try done; nra.
  - right. exists ((c1 - b1) / (a1 - b1)).
    f_equal; field_simplify_eq; try done; nra.
Qed.

Lemma cross_nonzero_l (a b : vec3) : cross a b <> zero3 -> a <> zero3.
Proof. intros H ->. by rewrite cross_zero_l in H. Qed.

Lemma dot_cross_l (a b : vec3) : dot a (cross a b) = 0.
Proof. destruct a, b. unfold dot, cross. simpl. ring. Qed.

Lemma sumsq_cross_orthogonal (a b : vec3) :
  dot a b = 0 -> sumsq (cross a b) = sumsq a * sumsq b.
Proof.
  destruct a as [a1 a2 a3], b as [b1 b2 b3]. unfold dot, cross, sumsq. simpl.
  intros H.
  replace ((a2 * b3 - a3 * b2) * (a2 * b3 - a3 * b2) +
           (a3 * b1 - a1 * b3) * (a3 * b1 - a1 * b3) +
           (a1 * b2 - a2 * b1) * (a1 * b2 - a2 * b1))
    with ((a1 * a1 + a2 * a2 + a3 * a3) * (b1 * b1 + b2 * b2 + b3 * b3)
          - (a1 * b1 + a2 * b2 + a3 * b3) * (a1 * b1 + a2 * b2 + a3 * b3))
    by ring.
  rewrite H. ring.
Qed.

Lemma dot_divs (a b : vec3) (n m : R) :
  dot (divs a n) (divs b m) = dot a b * (/ n * / m).
Proof. destruct a, b. unfold dot, divs, Rdiv. simpl. ring. Qed.

Lemma normalize_in_place_unit (v : vec3) :
  v <> zero3 ->
  normalize_in_place v = divs v (norm v) /\ 0 < norm v /\
  sumsq (normalize_in_place v) = 1.
Proof.
  intros Hv. pose proof (sumsq_pos v Hv) as Hs.
  destruct (sqrt_sq_pos _ Hs) as [Hsq Hpos]. fold (norm v) in Hsq, Hpos.
  unfold normalize_in_place. destruct (Rlt_dec 0 (norm v)); [| lra].
  split_and!; try done.
  destruct v as [x y z]. unfold sumsq, divs in *. simpl in *.
  field_simplify_eq; lra.
Qed.

Lemma norm_of_sumsq_1 (v : vec3) : sumsq v = 1 -> norm v = 1.
Proof. intros H. unfold norm. rewrite H. apply sqrt_1. Qed.

(** What the three vectors of make_axis_vectors are, for points that are
    not collinear. *)
Lemma make_axis_vectors_frame (A B C : vec3) :
  ~ collinear A B C ->
  exists parallel_ABC AB_vect perpendicular : vec3,
    make_axis_vectors A B C = (parallel_ABC, AB_vect, perpendicular) /\
    sumsq parallel_ABC = 1 /\ sumsq AB_vect = 1 /\ sumsq perpendicular = 1 /\
    dot parallel_ABC AB_vect = 0 /\ dot AB_vect perpendicular = 0 /\
    dot parallel_ABC perpendicular = 0.
Proof.
  intros Hn. pose proof (not_collinear_cross A B C Hn) as Hp.
  set (u := sub A B) in *. set (p := cross u (sub C B)) in *.
  pose proof (cross_nonzero_l _ _ Hp) as Hu.
  assert (Hq : cross u p <> zero3).
  { intros E. pose proof (sumsq_cross_orthogonal u p (dot_cross_l u _)) as S.
    rewrite E in S. pose proof (sumsq_pos u Hu). pose proof (sumsq_pos p Hp).
    unfold sumsq at 1 in S. simpl in S. nra. }
  destruct (normalize_in_place_unit u Hu) as (Eu & _ & Su).
  destruct (normalize_in_place_unit p Hp) as (Ep & _ & Sp).
  destruct (normalize_in_place_unit _ Hq) as (Eq & _ & Sq).
  eexists _, _, _. split; [apply make_axis_vectors_eq |].
  fold u. fold p. split_and!; try done.
  - rewrite Ep, Eu, dot_divs.
    replace (dot p u) with (dot u p) by (unfold dot; ring).
    unfold p. rewrite dot_cross_l. ring.
  - rewrite Eu, Eq, dot_divs, dot_cross_l. ring.
  - rewrite Ep, Eq, dot_divs.
    replace (dot p (cross u p)) with 0; [ring |].
    destruct u, p. unfold dot, cross. simpl. ring.
Qed.

(** X1: for three points that are not collinear, make_axis_vectors
    returns an orthonormal frame: three vectors of length 1, orthogonal
    two by two. *)
Theorem make_axis_vectors_orthonormal (A B C : vec3) :
  ~ collinear A B C ->
  exists parallel_ABC AB_vect perpendicular : vec3,
    make_axis_vectors A B C = (parallel_ABC, AB_vect, perpendicular) /\
    norm parallel_ABC = 1 /\ norm AB_vect = 1 /\ norm perpendicular = 1 /\
    dot parallel_ABC AB_vect = 0 /\ dot AB_vect perpendicular = 0 /\
    dot parallel_ABC perpendicular = 0.
Proof.
  intros Hn.
  destruct (make_axis_vectors_frame A B C Hn)
    as (p & a & q & E & Sp & Sa & Sq & D1 & D2 & D3).
  exists p, a, q. split_and!; try done; by apply norm_of_sumsq_1.
Qed.

Lemma right_angle_not_collinear :
  ~ collinear (mk3 0 0 0) (mk3 1 0 0) (mk3 1 1 0).
Proof.
  intros [E | [t E]]; [injection E as E; lra |].
  unfold sub, scale in E. simpl in E. injection E as E1 E2 E3. lra.
Defined.

Lemma make_axis_vectors_orthonormal_witness :
  exists parallel_ABC AB_vect perpendicular : vec3,
    make_axis_vectors (mk3 0 0 0) (mk3 1 0 0) (mk3 1 1 0)
      = (parallel_ABC, AB_vect, perpendicular) /\
    norm parallel_ABC = 1 /\ dot parallel_ABC AB_vect = 0.
Proof.
  destruct (make_axis_vectors_orthonormal (mk3 0 0 0) (mk3 1 0 0) (mk3 1 1 0)
              right_angle_not_collinear)
    as (p & a & q & E & Np & _ & _ & D & _).
  exists p, a, q. split; [exact E | split; [exact Np | exact D]].
Defined.

Lemma transpose_transpose (m : mat3) : transpose (transpose m) = m.
Proof. by destruct m as [[? ? ?] [? ? ?] [? ? ?]]. Qed.

(** The new bond of make_coord: the local offset carried over to the rows
    of the frame. *)
Lemma make_coord_bond (theta phi distance : R) (parent xaxis yaxis : vec3)
    (parallel_ABC AB_vect perpendicular : vec3) :
  make_axis_vectors parent xaxis yaxis = (parallel_ABC, AB_vect, perpendicular) ->
  sub (make_coord theta phi distance parent xaxis yaxis) parent =
    add (add (scale (distance * cos phi) AB_vect)
             (scale (distance * sin phi * cos theta) (neg perpendicular)))
        (scale (distance * sin phi * sin theta) parallel_ABC).
Proof.
  intros E. unfold make_coord, rotation_to_plane. rewrite E.
  rewrite mat_mul_AXIS_111, transpose_transpose.
  destruct parent, parallel_ABC, AB_vect, perpendicular.
  unfold make_coord_from_angles, vec_mat, col0, col1, col2, dot, sub, add,
    scale, neg.
  simpl. f_equal; ring.
Qed.

Lemma sin_cos_sq (x : R) : sin x * sin x + cos x * cos x = 1.
Proof. exact (sin2_cos2 x). Qed.

(** X2: for reference points that are not collinear, make_coord puts the
    new atom at the distance |distance| from the parent, whatever the two
    angles are. *)
Theorem make_coord_bond_length (theta phi distance : R)
    (parent xaxis yaxis : vec3) :
  ~ collinear parent xaxis yaxis ->
  norm (sub (make_coord theta phi distance parent xaxis yaxis) parent)
    = Rabs distance.
Proof.
  intros Hn.
  destruct (make_axis_vectors_frame parent xaxis yaxis Hn)
    as (p & a & q & E & Sp & Sa & Sq & D1 & D2 & D3).
  rewrite (make_coord_bond _ _ _ _ _ _ _ _ _ E).
  rewrite <- sqrt_Rsqr_abs. unfold norm. f_equal.
  pose proof (sin_cos_sq phi) as Hphi. pose proof (sin_cos_sq theta) as Hth.
  set (x := distance * cos phi). set (y := distance * sin phi * cos theta).
  set (z := distance * sin phi * sin theta).
  assert (Hexp : sumsq (add (add (scale x a) (scale y (neg q))) (scale z p))
    = x * x * sumsq a + y * y * sumsq q + z * z * sumsq p
      - 2 * (x * y) * dot a q + 2 * (x * z) * dot p a - 2 * (y * z) * dot p q).
  { destruct a, q, p. unfold sumsq, dot, add, scale, neg. simpl. ring. }
  rewrite Hexp, Sp, Sa, Sq, D1, D2, D3. subst x y z. unfold Rsqr.
  replace (distance * distance)
    with (distance * distance *
          (sin phi * sin phi * (sin theta * sin theta + cos theta * cos theta)
           + cos phi * cos phi))
    by (rewrite Hth, Rmult_1_r, Hphi; ring).
  ring.
Qed.

Lemma make_coord_bond_length_witness :
  norm (sub (make_coord 1 2 3 (mk3 0 0 0) (mk3 1 0 0) (mk3 1 1 0)) (mk3 0 0 0))
    = Rabs 3.
Proof.
  exact (make_coord_bond_length 1 2 3 (mk3 0 0 0) (mk3 1 0 0) (mk3 1 1 0)
           right_angle_not_collinear).
Defined.

(** X3: in the frame of make_axis_vectors the new bond of make_coord has
    the components distance * cos(phi) along the parent - xaxis direction,
    distance * sin(phi) * cos(theta) against the perpendicular and
    distance * sin(phi) * sin(theta) along the normal: phi is the angle
    between the new bond and the parent - xaxis direction, theta turns the
    bond about that direction. *)
Theorem make_coord_components (theta phi distance : R)
    (parent xaxis yaxis : vec3) :
  ~ collinear parent xaxis yaxis ->
  exists parallel_ABC AB_vect perpendicular : vec3,
    make_axis_vectors parent xaxis yaxis = (parallel_ABC, AB_vect, perpendicular) /\
    let bond := sub (make_coord theta phi distance parent xaxis yaxis) parent in
    dot bond AB_vect = distance * cos phi /\
    dot bond (neg perpendicular) = distance * sin phi * cos theta /\
    dot bond parallel_ABC = distance * sin phi * sin theta.
Proof.
  intros Hn.
  destruct (make_axis_vectors_frame parent xaxis yaxis Hn)
    as (p & a & q & E & Sp & Sa & Sq & D1 & D2 & D3).
  exists p, a, q. split; [done |]. cbv zeta.
  rewrite (make_coord_bond _ _ _ _ _ _ _ _ _ E).
  set (x := distance * cos phi). set (y := distance * sin phi * cos theta).
  set (z := distance * sin phi * sin theta).
  split_and!.
  - replace (dot _ a) with (x * sumsq a - y * dot a q + z * dot p a)
      by (destruct a, q, p; unfold sumsq, dot, add, scale, neg; simpl; ring).
    rewrite Sa, D1, D2. ring.
  - replace (dot _ (neg q)) with (- x * dot a q + y * sumsq q - z * dot p q)
      by (destruct a, q, p; unfold sumsq, dot, add, scale, neg; simpl; ring).
    rewrite Sq, D2, D3. ring.
  - replace (dot _ p) with (x * dot p a - y * dot p q + z * sumsq p)
      by (destruct a, q, p; unfold sumsq, dot, add, scale, neg; simpl; ring).
    rewrite Sp, D1, D3. ring.
Qed.

Lemma make_coord_components_witness :
  exists parallel_ABC AB_vect perpendicular : vec3,
    make_axis_vectors (mk3 0 0 0) (mk3 1 0 0) (mk3 1 1 0)
      = (parallel_ABC, AB_vect, perpendicular) /\
    dot (sub (make_coord 1 2 3 (mk3 0 0 0) (mk3 1 0 0) (mk3 1 1 0)) (mk3 0 0 0))
        AB_vect = 3 * cos 2.
Proof.
  destruct (make_coord_components 1 2 3 (mk3 0 0 0) (mk3 1 0 0) (mk3 1 1 0)
              right_angle_not_collinear)
    as (p & a & q & E & Hx & _).
  exists p, a, q. split; [exact E | exact Hx].
Defined.

(** ** More on calc_torsion_angles *)

Lemma sub_add_same (a b t : vec3) : sub (add a t) (add b t) = sub a b.
Proof. destruct a, b, t. unfold sub, add. simpl. f_equal; ring. Qed.

Lemma zip_with_sub_moved (t : vec3) (a b : list vec3) :
  zip_with sub (map (fun p => add p t) a) (map (fun p => add p t) b)
    = zip_with sub a b.
Proof.
  revert b. induction a as [| x a IH]; intros [| y b]; simpl; try done.
  by rewrite sub_add_same, IH.
Qed.

(** X4: the torsion angles do not change when the whole chain is moved:
    calc_torsion_angles reads its input only through the differences of
    consecutive coordinates. *)
Theorem calc_torsion_angles_moved (t : vec3) (coords : list vec3) :
  calc_torsion_angles (map (fun p => add p t) coords)
    = calc_torsion_angles coords.
Proof.
  unfold calc_torsion_angles. rewrite length_map.
  destruct (decide _); [| done].
  unfold from1, upto_last. rewrite !length_map.
  rewrite firstn_map, skipn_map, zip_with_sub_moved. done.
Qed.

(** X5: calc_torsion_angles fails its assertion on fewer than four atoms
    and returns exactly N - 3 angles on N >= 4 atoms. *)
Theorem calc_torsion_angles_count (coords : list vec3) :
  (calc_torsion_angles coords = None <-> (length coords <= 3)%nat) /\
  ((3 < length coords)%nat ->
   exists angles, calc_torsion_angles coords = Some angles /\
                  length angles = (length coords - 3)%nat).
Proof.
  split.
  - split.
    + intros H. destruct (decide (length coords <= 3)%nat) as [| Hn]; [done |].
      unfold calc_torsion_angles in H. destruct (decide _); [done | lia].
    + apply calc_torsion_angles_short.
  - intros Hlen. destruct (calc_torsion_angles coords) as [angles |] eqn:E.
    + exists angles. split; [done |]. by apply calc_torsion_angles_length.
    + unfold calc_torsion_angles in E. destruct (decide _); [done | lia].
Qed.

Lemma calc_torsion_angles_four_atoms_witness :
  calc_torsion_angles [mk3 1 0 0; mk3 0 0 0; mk3 0 1 0; mk3 1 1 1]
    = Some [dihedral_spec (mk3 1 0 0) (mk3 0 0 0) (mk3 0 1 0) (mk3 1 1 1)].
Proof.
  apply calc_torsion_angles_four_atoms.
  - unfold cross, sub, zero3. simpl. intros E. injection E as _ _ E. lra.
  - unfold cross, sub, zero3. simpl. intros E. injection E as E _ _. lra.
Defined.

End LibcalcFacts.

(** ** The builder *)

Module CliBuildFacts.
Import Vec VecFacts Libcalc LibcalcFacts CliBuild.

Section Growth.

Context (g : BondGeometry).
Context (make_coord_Q : vec3 -> vec3 -> vec3 -> R -> R -> R -> vec3).

Lemma next_three (a b c : R) (cy : cycle) :
  c_items cy = [a; b; c] ->
  exists x, [a; b; c] !! (c_pos cy mod 3)%nat = Some x /\
            next cy = Some (x, mkCycle (c_items cy) (S (c_pos cy))).
Proof.
  intros E. unfold next. rewrite E. simpl length.
  assert (Hlt : (c_pos cy mod 3 < 3)%nat) by (apply Nat.mod_upper_bound; lia).
  destruct (lookup_lt_is_Some_2 [a; b; c] (c_pos cy mod 3)%nat Hlt) as [x Hx].
  exists x. by rewrite Hx.
Qed.

Lemma cycle_pairs_lookup (p : nat) (len bend : R) :
  bond_lens_items g !! p = Some len ->
  bond_bend_items g !! p = Some bend ->
  cycle_pairs g !! p = Some (len, bend).
Proof.
  unfold cycle_pairs, bond_lens_items, bond_bend_items.
  destruct p as [| [| [| p]]]; simpl; intros [= <-] [= <-]; done.
Qed.

(** One placement, the cursor inside the buffer. *)
Lemma place_next_inside (s : build_state) (torsion : R) :
  loop_invariant g s -> (i s < length (bb s))%nat ->
  exists v1 v2 v3 len bend,
    bb s !! (i s - 3)%nat = Some v1 /\
    bb s !! (i s - 2)%nat = Some v2 /\
    bb s !! (i s - 1)%nat = Some v3 /\
    cycle_pairs g !! (c_pos (bond_lens s) mod 3)%nat = Some (len, bend) /\
    place_next make_coord_Q s torsion =
      Normal (mkState (<[i s := make_coord_Q v1 v2 v3 len bend torsion]> (bb s))
                (S (i s))
                (mkCycle (c_items (bond_lens s)) (S (c_pos (bond_lens s))))
                (mkCycle (c_items (bond_bend s)) (S (c_pos (bond_bend s))))).
Proof.
  intros (Hl & Hb & Hp & Hi) Hlt.
  destruct (lookup_lt_is_Some_2 (bb s) (i s - 3)%nat ltac:(lia)) as [v1 H1].
  destruct (lookup_lt_is_Some_2 (bb s) (i s - 2)%nat ltac:(lia)) as [v2 H2].
  destruct (lookup_lt_is_Some_2 (bb s) (i s - 1)%nat ltac:(lia)) as [v3 H3].
  destruct (next_three _ _ _ _ Hl) as (len & Hlen & Hnl).
  destruct (next_three _ _ _ _ Hb) as (bend & Hbend & Hnb).
  exists v1, v2, v3, len, bend. split_and!; try done.
  - apply cycle_pairs_lookup; [done | by rewrite Hp].
  - unfold place_next. rewrite H1, H2, H3, Hnl, Hnb.
    destruct (decide _); [done | lia].
Qed.

(** One placement, the buffer full: the store raises IndexError and leaves
    the buffer and the cursor as they were. *)
Lemma place_next_full (s : build_state) (torsion : R) :
  loop_invariant g s -> i s = length (bb s) ->
  exists s', place_next make_coord_Q s torsion = IndexError s' /\
             bb s' = bb s /\ i s' = i s.
Proof.
  intros (Hl & Hb & Hp & Hi) Hfull.
  destruct (lookup_lt_is_Some_2 (bb s) (i s - 3)%nat ltac:(lia)) as [v1 H1].
  destruct (lookup_lt_is_Some_2 (bb s) (i s - 2)%nat ltac:(lia)) as [v2 H2].
  destruct (lookup_lt_is_Some_2 (bb s) (i s - 1)%nat ltac:(lia)) as [v3 H3].
  destruct (next_three _ _ _ _ Hl) as (len & Hlen & Hnl).
  destruct (next_three _ _ _ _ Hb) as (bend & Hbend & Hnb).
  unfold place_next. rewrite H1, H2, H3, Hnl, Hnb.
  destruct (decide _); [lia |]. by eexists.
Qed.

Lemma loop_invariant_step (s : build_state) (c : vec3) :
  loop_invariant g s -> (i s < length (bb s))%nat ->
  loop_invariant g
    (mkState (<[i s := c]> (bb s)) (S (i s))
       (mkCycle (c_items (bond_lens s)) (S (c_pos (bond_lens s))))
       (mkCycle (c_items (bond_bend s)) (S (c_pos (bond_bend s))))).
Proof.
  intros (Hl & Hb & Hp & Hi) Hlt. unfold loop_invariant. simpl.
  rewrite length_insert. split_and!; try done; lia.
Qed.

Lemma run_fragment_app (a b : list R) (s : build_state) :
  run_fragment make_coord_Q (a ++ b) s =
    match run_fragment make_coord_Q a s with
    | Normal s' => run_fragment make_coord_Q b s'
    | o => o
    end.
Proof.
  revert s. induction a as [| t a IH]; intros s; simpl; [done |].
  destruct (place_next make_coord_Q s t); [apply IH | done | done].
Qed.

(** A run of placements that fits the buffer: every torsion angle places
    one atom, from the three atoms before it and the next pair of the
    cycle; the atoms placed before are left alone. *)
Lemma run_fragment_fits (agls : list R) (s : build_state) :
  loop_invariant g s -> (i s + length agls <= length (bb s))%nat ->
  exists s',
    run_fragment make_coord_Q agls s = Normal s' /\
    loop_invariant g s' /\
    i s' = (i s + length agls)%nat /\
    length (bb s') = length (bb s) /\
    c_pos (bond_lens s') = (c_pos (bond_lens s) + length agls)%nat /\
    (forall j, (j < i s)%nat -> bb s' !! j = bb s !! j) /\
    (forall j torsion, agls !! j = Some torsion ->
       exists v1 v2 v3 len bend,
         bb s' !! (i s + j - 3)%nat = Some v1 /\
         bb s' !! (i s + j - 2)%nat = Some v2 /\
         bb s' !! (i s + j - 1)%nat = Some v3 /\
         cycle_pairs g !! ((c_pos (bond_lens s) + j) mod 3)%nat = Some (len, bend) /\
         bb s' !! (i s + j)%nat = Some (make_coord_Q v1 v2 v3 len bend torsion)).
Proof.
  revert s. induction agls as [| t agls IH]; intros s Hinv Hfit.
  - exists s. simpl. split_and!; try done; try lia.
  - simpl in Hfit.
    destruct (place_next_inside s t Hinv ltac:(lia))
      as (v1 & v2 & v3 & len & bend & H1 & H2 & H3 & Hpair & Hstep).
    pose proof (loop_invariant_step s (make_coord_Q v1 v2 v3 len bend t) Hinv ltac:(lia))
      as Hinv1.
    set (s1 := mkState _ _ _ _) in *.
    destruct (IH s1 Hinv1) as (s' & Hrun & Hinv' & Hi' & Hlen' & Hpos' & Hold & Hnew).
    { subst s1. simpl. rewrite length_insert. lia. }
    assert (Hi1 : i s1 = S (i s)) by done.
    assert (Hbb1 : bb s1 = <[i s := make_coord_Q v1 v2 v3 len bend t]> (bb s)) by done.
    destruct Hinv as (_ & _ & _ & Hi).
    assert (Hkeep : forall j, (j < i s)%nat -> bb s' !! j = bb s !! j).
    { intros j Hj. rewrite Hold by lia. rewrite Hbb1.
      apply list_lookup_insert_ne. lia. }
    exists s'. simpl. rewrite Hstep. split_and!; try done.
    + lia.
    + rewrite Hlen', Hbb1. apply length_insert.
    + rewrite Hpos'. subst s1. simpl. lia.
    + intros [| j] torsion Hj; simpl in Hj.
      * injection Hj as <-. exists v1, v2, v3, len, bend.
        rewrite !Nat.add_0_r. rewrite !Hkeep by lia.
        split_and!; try done.
        rewrite Hold by lia. rewrite Hbb1.
        apply list_lookup_insert_eq. lia.
      * destruct (Hnew j torsion Hj) as (w1 & w2 & w3 & l' & b' & G1 & G2 & G3 & Gp & Gn).
        exists w1, w2, w3, l', b'. rewrite Hi1 in *.
        replace (i s + S j - 3)%nat with (S (i s) + j - 3)%nat by lia.
        replace (i s + S j - 2)%nat with (S (i s) + j - 2)%nat by lia.
        replace (i s + S j - 1)%nat with (S (i s) + j - 1)%nat by lia.
        replace (i s + S j)%nat with (S (i s) + j)%nat by lia.
        split_and!; try done.
        replace (c_pos (bond_lens s) + S j)%nat
          with (c_pos (bond_lens s1) + j)%nat by (subst s1; simpl; lia).
        done.
Qed.

(** A run of placements that does not fit: IndexError, with the buffer as
    the torsion angles that did fit have left it. *)
Lemma run_fragment_overflow (agls : list R) (s : build_state) :
  loop_invariant g s -> (length (bb s) < i s + length agls)%nat ->
  exists s' s'',
    run_fragment make_coord_Q agls s = IndexError s' /\
    run_fragment make_coord_Q (take (length (bb s) - i s) agls) s = Normal s'' /\
    bb s' = bb s'' /\
    i s'' = length (bb s) /\
    length (bb s'') = length (bb s).
Proof.
  intros Hinv Hover. pose proof Hinv as (_ & _ & _ & Hi).
  set (d := (length (bb s) - i s)%nat).
  destruct (run_fragment_fits (take d agls) s Hinv) as
    (s'' & Hrun & Hinv'' & Hi'' & Hlen'' & _).
  { rewrite length_take. lia. }
  rewrite length_take in Hi''.
  destruct (drop d agls) as [| t rest] eqn:Hdrop.
  { apply (f_equal length) in Hdrop. rewrite length_drop in Hdrop.
    simpl in Hdrop. lia. }
  destruct (place_next_full s'' t Hinv'' ltac:(lia)) as (s' & Hstep & Hbb & _).
  exists s', s''. split_and!; try done; try lia.
  rewrite <- (take_drop d agls), run_fragment_app, Hrun, Hdrop.
  simpl. by rewrite Hstep.
Qed.

Lemma seed_ok (n : nat) :
  (2 < n)%nat ->
  exists s0, seed g make_coord_Q n = Some s0 /\
             loop_invariant g s0 /\ i s0 = 3%nat /\ length (bb s0) = n.
Proof.
  intros Hn. unfold seed.
  destruct (decide (1 < n)%nat); [| lia].
  rewrite list_lookup_insert_ne by lia.
  rewrite lookup_replicate_2 by lia.
  rewrite list_lookup_insert_eq by (rewrite length_replicate; lia).
  destruct (decide (2 < n)%nat); [| lia].
  eexists. split; [done |].
  unfold loop_invariant. simpl.
  rewrite !length_insert, length_replicate. split_and!; try done; lia.
Qed.

Section Draws.

Context (angles : list (list R)) (slices : list (nat * nat)) (RC : nat -> nat).

Lemma draw_some (k : nat) :
  slices <> [] ->
  exists sl, sl ∈ slices /\
    draw angles slices RC k = Some (slice_1_m2 (ravel (rows_of angles sl))).
Proof.
  intros Hne. unfold draw.
  assert (Hlt : (RC k mod length slices < length slices)%nat).
  { apply Nat.mod_upper_bound. destruct slices; [done | simpl; lia]. }
  destruct (lookup_lt_is_Some_2 _ _ Hlt) as [sl Hsl].
  exists sl. rewrite Hsl. split; [| done]. by eapply list_elem_of_lookup_2.
Qed.

Lemma length_slice_1_m2 {A} (a : list A) :
  length (slice_1_m2 a) = (length a - 3)%nat.
Proof. unfold slice_1_m2. rewrite length_drop, length_take. lia. Qed.

(** The loop ends as soon as every draw brings at least one torsion angle. *)
Lemma grow_terminates (d : nat) :
  (forall k, exists agls, draw angles slices RC k = Some agls /\ agls <> []) ->
  forall (k : nat) (s : build_state),
    loop_invariant g s -> (length (bb s) - i s <= d)%nat ->
    exists fuel s',
      grow make_coord_Q angles slices RC fuel k s = Some (Saved (bb s')) /\
      run_fragment make_coord_Q
        (take (length (bb s) - i s) (drawn_torsions angles slices RC fuel k)) s
        = Normal s' /\
      i s' = length (bb s) /\ length (bb s') = length (bb s).
Proof.
  intros Hdraw. induction d as [| d IH]; intros k s Hinv Hd;
    destruct (Hdraw k) as (agls & Hk & Hne);
    pose proof Hinv as (_ & _ & _ & Hi);
    assert (Hpos : (0 < length agls)%nat) by (destruct agls; [done | simpl; lia]).
  - destruct (run_fragment_overflow agls s Hinv ltac:(lia))
      as (s' & s'' & Hrun & Hpre & Hbb & Hi'' & Hlen'').
    exists 1%nat, s''. simpl. rewrite Hk, Hrun, Hbb. simpl.
    rewrite app_nil_r. done.
  - destruct (decide (i s + length agls <= length (bb s))%nat) as [Hfit | Hover].
    + destruct (run_fragment_fits agls s Hinv Hfit)
        as (s1 & Hrun & Hinv1 & Hi1 & Hlen1 & _).
      destruct (IH (S k) s1 Hinv1 ltac:(lia)) as (fuel & s' & Hg & Hr & Hi' & Hlen').
      exists (S fuel), s'. simpl. rewrite Hk, Hrun. simpl.
      split_and!; try done; try lia.
      rewrite take_app_ge by lia. rewrite run_fragment_app, Hrun.
      rewrite <- Hr. f_equal. f_equal. lia.
    + destruct (run_fragment_overflow agls s Hinv ltac:(lia))
        as (s' & s'' & Hrun & Hpre & Hbb & Hi'' & Hlen'').
      exists 1%nat, s''. simpl. rewrite Hk, Hrun, Hbb. simpl.
      rewrite app_nil_r. done.
Qed.

(** With no torsion angle in any draw the loop never ends. *)
Lemma grow_runs_on (fuel : nat) :
  (forall k, draw angles slices RC k = Some []) ->
  forall (k : nat) (s : build_state),
    grow make_coord_Q angles slices RC fuel k s = None.
Proof.
  intros Hdraw. induction fuel as [| fuel IH]; intros k s; simpl; [done |].
  rewrite Hdraw. simpl. apply IH.
Qed.

End Draws.

End Growth.

Lemma start_state_invariant : loop_invariant sample_geometry Examples.start_state.
Proof. unfold loop_invariant. simpl. split_and!; try done; lia. Defined.

Lemma degenerate_state_invariant :
  loop_invariant sample_geometry Examples.degenerate_state.
Proof. unfold loop_invariant. simpl. split_and!; try done; lia. Defined.

Lemma x_axis_collinear : collinear (mk3 2 0 0) (mk3 1 0 0) (mk3 0 0 0).
Proof. right. exists (-1). unfold sub, scale. simpl. f_equal; lra. Defined.

(** C3 (amended): a run of torsion angles that fits the buffer places one
    atom per angle, in order, each from the three atoms before it and from
    the next pair of the 3-cycle (C->N bond, pi - CA-C-N bend),
    (N->CA bond, pi - C-N-CA bend), (CA->C bond, pi - N-CA-C bend). *)
Theorem growth_consumes_cycle_pairs (g : BondGeometry)
    (make_coord_Q : vec3 -> vec3 -> vec3 -> R -> R -> R -> vec3)
    (agls : list R) (s : build_state) :
  loop_invariant g s -> (i s + length agls <= length (bb s))%nat ->
  cycle_pairs g =
    [(distance_C_Np1 g, PI - average_CA_C_Np1 g);
     (distance_N_CA g, PI - average_Cm1_N_CA g);
     (distance_CA_C g, PI - average_N_CA_C g)] /\
  exists s',
    run_fragment make_coord_Q agls s = Normal s' /\
    i s' = (i s + length agls)%nat /\
    (forall j, (j < i s)%nat -> bb s' !! j = bb s !! j) /\
    (forall j torsion, agls !! j = Some torsion ->
       exists v1 v2 v3 len bend,
         bb s' !! (i s + j - 3)%nat = Some v1 /\
         bb s' !! (i s + j - 2)%nat = Some v2 /\
         bb s' !! (i s + j - 1)%nat = Some v3 /\
         cycle_pairs g !! ((c_pos (bond_lens s) + j) mod 3)%nat = Some (len, bend) /\
         bb s' !! (i s + j)%nat = Some (make_coord_Q v1 v2 v3 len bend torsion)).
Proof.
  intros Hinv Hfit. split; [done |].
  destruct (run_fragment_fits g make_coord_Q agls s Hinv Hfit)
    as (s' & Hrun & _ & Hi & _ & _ & Hold & Hnew).
  by exists s'.
Qed.

Lemma growth_consumes_cycle_pairs_witness :
  exists s',
    run_fragment place_with_make_coord [0; 0; 0] Examples.start_state = Normal s' /\
    i s' = 6%nat.
Proof.
  destruct (growth_consumes_cycle_pairs sample_geometry place_with_make_coord
              [0; 0; 0] Examples.start_state start_state_invariant)
    as (_ & s' & Hrun & Hi & _).
  - simpl. lia.
  - exists s'. split; [exact Hrun | exact Hi].
Defined.

(** C3, as stated: the first pair that the cycles hand out is the C->N
    bond with the complement of the CA-C-N bend; the pair that the claim
    names first has the C-N-CA bend, which is neither that value nor its
    complement. *)
Lemma first_pair_is_not_the_claimed_one :
  exists len bend lens' bends',
    next (bond_lens Examples.start_state) = Some (len, lens') /\
    next (bond_bend Examples.start_state) = Some (bend, bends') /\
    cycle_pairs sample_geometry !! 0%nat = Some (len, bend) /\
    claimed_pairs sample_geometry !! 0%nat <> Some (len, bend) /\
    bend <> average_Cm1_N_CA sample_geometry.
Proof.
  do 4 eexists. split_and!; [reflexivity | reflexivity | reflexivity | |].
  - simpl. intros [= E]. lra.
  - simpl. pose proof PI_4. lra.
Qed.

(** C4 (amended): of the torsion angles of the drawn fragment, the first
    one and the last two are discarded; the ones in between are the
    angles that place atoms. *)
Theorem draw_discards_first_and_last_two (angles : list (list R))
    (slices : list (nat * nat)) (RC : nat -> nat) (k : nat) (sl : nat * nat)
    (first t1 t2 : R) (interior : list R) :
  slices !! (RC k mod length slices)%nat = Some sl ->
  ravel (rows_of angles sl) = first :: interior ++ [t1; t2] ->
  draw angles slices RC k = Some interior.
Proof.
  intros Hsl Hrav. unfold draw. rewrite Hsl, Hrav. f_equal.
  unfold slice_1_m2. simpl length. rewrite length_app. simpl length.
  replace (S (length interior + 2) - 2)%nat with (S (length interior)) by lia.
  simpl. rewrite take_app_length. done.
Qed.

Lemma draw_discards_first_and_last_two_witness :
  draw Examples.two_residues Examples.both_residues Examples.first_choice 0
    = Some [2; 3; 4].
Proof.
  apply (draw_discards_first_and_last_two Examples.two_residues
           Examples.both_residues Examples.first_choice 0 (0%nat, 2%nat) 1 5 6).
  - reflexivity.
  - reflexivity.
Defined.

(** C4, as stated: from the six torsion angles of a fragment of two
    residues the loop takes three, not the four that are left without the
    first and the last. *)
Lemma draw_is_not_without_first_and_last :
  draw Examples.two_residues Examples.both_residues Examples.first_choice 0
    = Some [2; 3; 4] /\
  slice_1_m1 (ravel (rows_of Examples.two_residues (0%nat, 2%nat))) = [2; 3; 4; 5] /\
  draw Examples.two_residues Examples.both_residues Examples.first_choice 0
    <> Some (slice_1_m1 (ravel (rows_of Examples.two_residues (0%nat, 2%nat)))).
Proof.
  split_and!; [reflexivity | reflexivity |].
  intros E. apply (f_equal (fun o => length (default [] o))) in E.
  simpl in E. lia.
Qed.

(** C5 (amended): when the three reference atoms of a placement are
    collinear or coincident, make_coord still returns a coordinate, the
    parent moved by distance * cos(torsion) along the normalised
    parent - xaxis vector, and the loop stores what the placement function
    returns as the next atom and advances the cursor. *)
Theorem growth_places_on_degenerate_frame (g : BondGeometry)
    (make_coord_Q : vec3 -> vec3 -> vec3 -> R -> R -> R -> vec3)
    (s : build_state) (torsion : R) (v1 v2 v3 : vec3) :
  loop_invariant g s -> (i s < length (bb s))%nat ->
  bb s !! (i s - 3)%nat = Some v1 ->
  bb s !! (i s - 2)%nat = Some v2 ->
  bb s !! (i s - 1)%nat = Some v3 ->
  collinear v3 v2 v1 ->
  (forall theta phi distance,
     make_coord theta phi distance v3 v2 v1 =
       add (scale (distance * cos phi) (normalize_in_place (sub v3 v2))) v3) /\
  exists len bend s',
    cycle_pairs g !! (c_pos (bond_lens s) mod 3)%nat = Some (len, bend) /\
    place_next make_coord_Q s torsion = Normal s' /\
    i s' = S (i s) /\
    bb s' = <[i s := make_coord_Q v1 v2 v3 len bend torsion]> (bb s).
Proof.
  intros Hinv Hlt H1 H2 H3 Hcol. split.
  - intros theta phi distance. by apply make_coord_collinear.
  - destruct (place_next_inside g make_coord_Q s torsion Hinv Hlt)
      as (w1 & w2 & w3 & len & bend & G1 & G2 & G3 & Hpair & Hstep).
    rewrite H1 in G1. rewrite H2 in G2. rewrite H3 in G3.
    injection G1 as <-. injection G2 as <-. injection G3 as <-.
    exists len, bend. eexists. split_and!; [done | exact Hstep | done | done].
Qed.

Lemma growth_places_on_degenerate_frame_witness :
  exists s',
    place_next place_with_make_coord Examples.degenerate_state 0 = Normal s' /\
    i s' = 4%nat.
Proof.
  destruct (growth_places_on_degenerate_frame sample_geometry
              place_with_make_coord Examples.degenerate_state 0
              (mk3 0 0 0) (mk3 1 0 0) (mk3 2 0 0) degenerate_state_invariant)
    as (_ & len & bend & s' & _ & Hstep & Hi & _).
  - simpl. lia.
  - reflexivity.
  - reflexivity.
  - reflexivity.
  - exact x_axis_collinear.
  - exists s'. split; [exact Hstep | exact Hi].
Defined.

(** C5, as stated: with three atoms on the x axis the placement is not
    rejected; a fourth atom is appended on the same axis. *)
Lemma degenerate_frame_is_not_rejected :
  collinear (mk3 2 0 0) (mk3 1 0 0) (mk3 0 0 0) /\
  exists s',
    place_next place_with_make_coord Examples.degenerate_state 0 = Normal s' /\
    i s' = 4%nat /\
    bb s' = [mk3 0 0 0; mk3 1 0 0; mk3 2 0 0; mk3 3.329 0 0].
Proof.
  split; [exact x_axis_collinear |].
  destruct (place_next_inside sample_geometry place_with_make_coord
              Examples.degenerate_state 0 degenerate_state_invariant)
    as (v1 & v2 & v3 & len & bend & H1 & H2 & H3 & Hpair & Hstep);
    [simpl; lia |].
  injection H1 as <-. injection H2 as <-. injection H3 as <-.
  simpl in Hpair. injection Hpair as <- <-.
  eexists. split_and!; [exact Hstep | done |].
  simpl. unfold place_with_make_coord.
  rewrite (make_coord_collinear _ _ _ _ _ _ x_axis_collinear).
  replace (sub (mk3 2 0 0) (mk3 1 0 0)) with (mk3 1 0 0)
    by (unfold sub; simpl; f_equal; lra).
  rewrite normalize_in_place_unit_x, cos_0.
  unfold add, scale. simpl. do 4 f_equal. f_equal; lra.
Qed.

Lemma draws_bring_torsions (angles : list (list R)) (slices : list (nat * nat))
    (RC : nat -> nat) :
  slices <> [] ->
  (forall sl, sl ∈ slices -> (3 < length (ravel (rows_of angles sl)))%nat) ->
  forall k, exists agls, draw angles slices RC k = Some agls /\ agls <> [].
Proof.
  intros Hne Hlong k.
  destruct (draw_some angles slices RC k Hne) as (sl & Hin & Hk).
  eexists. split; [exact Hk |].
  intros E. apply (f_equal length) in E. rewrite length_slice_1_m2 in E.
  specialize (Hlong sl Hin). simpl in E. lia.
Qed.

(** C6 (amended): from the seeded buffer, and with a pool that is not empty
    and whose fragments all have more than three torsion angles, the loop
    ends after finitely many draws; it ends with the buffer full, and the
    chain it saves is the seed followed by the atoms of the first n - 3
    torsion angles drawn, those of the last, partly used fragment
    included. *)
Theorem growth_terminates_and_keeps_partial_fragment (g : BondGeometry)
    (make_coord_Q : vec3 -> vec3 -> vec3 -> R -> R -> R -> vec3)
    (angles : list (list R)) (slices : list (nat * nat)) (RC : nat -> nat)
    (n : nat) (s0 : build_state) :
  seed g make_coord_Q n = Some s0 ->
  slices <> [] ->
  (forall sl, sl ∈ slices -> (3 < length (ravel (rows_of angles sl)))%nat) ->
  exists fuel s',
    grow make_coord_Q angles slices RC fuel 0 s0 = Some (Saved (bb s')) /\
    run_fragment make_coord_Q
      (take (n - 3) (drawn_torsions angles slices RC fuel 0)) s0 = Normal s' /\
    i s' = n /\ length (bb s') = n.
Proof.
  intros Hseed Hne Hlong.
  assert (Hn : (2 < n)%nat).
  { unfold seed in Hseed. destruct (decide (1 < n)%nat); [| done].
    repeat case_match; try done. }
  destruct (seed_ok g make_coord_Q n Hn) as (s & Hs & Hinv & Hi & Hlen).
  rewrite Hseed in Hs. injection Hs as <-.
  destruct (grow_terminates g make_coord_Q angles slices RC n
              (draws_bring_torsions angles slices RC Hne Hlong) 0%nat s0 Hinv
              ltac:(lia))
    as (fuel & s' & Hg & Hr & Hi' & Hlen').
  exists fuel, s'. rewrite Hlen, Hi in Hr. rewrite Hlen in Hi', Hlen'.
  done.
Qed.

Lemma growth_terminates_and_keeps_partial_fragment_witness :
  exists fuel s',
    grow place_with_make_coord Examples.two_residues Examples.both_residues
      Examples.first_choice fuel 0 (Examples.seeded sample_geometry) = Some (Saved (bb s')) /\
    i s' = 6%nat.
Proof.
  destruct (growth_terminates_and_keeps_partial_fragment sample_geometry
              place_with_make_coord Examples.two_residues Examples.both_residues
              Examples.first_choice 6 (Examples.seeded sample_geometry))
    as (fuel & s' & Hg & _ & Hi & _).
  - reflexivity.
  - discriminate.
  - intros sl Hin. apply list_elem_of_In in Hin. simpl in Hin.
    destruct Hin as [<- | []]. simpl. lia.
  - exists fuel, s'. split; [exact Hg | exact Hi].
Defined.

(** C6, as stated: with a pool that holds one fragment of one residue no
    draw brings a torsion angle, no store ever raises IndexError, and the
    loop is still running after any number of draws. *)
Lemma growth_runs_on_with_one_residue_fragments :
  Examples.that_residue <> [] /\
  seed sample_geometry place_with_make_coord 6 = Some (Examples.seeded sample_geometry) /\
  ~ (exists fuel e,
       grow place_with_make_coord Examples.one_residue Examples.that_residue
         Examples.first_choice fuel 0 (Examples.seeded sample_geometry) = Some e).
Proof.
  split_and!; [discriminate | reflexivity |].
  intros (fuel & e & He).
  rewrite (grow_runs_on place_with_make_coord Examples.one_residue
             Examples.that_residue Examples.first_choice fuel) in He; [done |].
  intros k. reflexivity.
Qed.

(** ** Atom labels and residue numbers *)

Lemma extend_labels_spec (AL : gmap string (list string))
    (residues labels : list string) :
  (forall result, extend_labels AL residues labels = Some result ->
     result = labels ++ concat (map (fun r => default [] (AL !! r)) residues) /\
     forall r, r ∈ residues -> is_Some (AL !! r)) /\
  (extend_labels AL residues labels = None ->
     exists r, r ∈ residues /\ AL !! r = None).
Proof.
  revert labels. induction residues as [| r rest IH]; intros labels; simpl.
  - split; [| done]. intros result [= <-]. rewrite app_nil_r. split; [done |].
    intros r Hr. by apply elem_of_nil in Hr.
  - destruct (AL !! r) as [ls |] eqn:E.
    + destruct (IH (labels ++ ls)) as [IHs IHn]. split.
      * intros result Hres. destruct (IHs result Hres) as [-> Hall].
        split; [by rewrite <- app_assoc |].
        intros r' [-> | Hr']%elem_of_cons; [by rewrite E | by apply Hall].
      * intros Hnone. destruct (IHn Hnone) as (r' & Hin & Hr').
        exists r'. split; [by apply elem_of_cons; right | done].
    + split; [done |]. intros _. exists r. split; [by apply elem_of_cons; left | done].
Qed.

Lemma generate_atom_labels_cases (input_seq : string)
    (AL : gmap string (list string)) :
  match generate_atom_labels input_seq AL with
  | Some labels =>
      labels = concat (map (fun r => default [] (AL !! r)) (characters input_seq))
      /\ forall r, r ∈ characters input_seq -> is_Some (AL !! r)
  | None => exists r, r ∈ characters input_seq /\ AL !! r = None
  end.
Proof.
  unfold generate_atom_labels.
  destruct (extend_labels_spec AL (characters input_seq) []) as [Hs Hn].
  destruct (extend_labels AL (characters input_seq) []) as [result |].
  - exact (Hs result eq_refl).
  - exact (Hn eq_refl).
Qed.

(** X7: generate_atom_labels raises KeyError exactly when some residue of
    the sequence is not a key of the table; otherwise it returns the label
    lists of the residues, one after the other in sequence order. *)
Theorem generate_atom_labels_spec (input_seq : string)
    (AL : gmap string (list string)) :
  (generate_atom_labels input_seq AL = None <->
     exists r, r ∈ characters input_seq /\ AL !! r = None) /\
  (forall labels, generate_atom_labels input_seq AL = Some labels ->
     labels = concat (map (fun r => default [] (AL !! r)) (characters input_seq))).
Proof.
  pose proof (generate_atom_labels_cases input_seq AL) as H.
  destruct (generate_atom_labels input_seq AL) as [result |].
  - destruct H as [-> Hall]. split; [split; [done |] |].
    + intros (r & Hin & Hr). destruct (Hall r Hin) as [x Hx]. congruence.
    + by intros labels [= <-].
  - split; [done |]. by intros labels.
Qed.

Lemma number_atoms_lookup (atom_labels : list string) (start : Z) (k : nat) :
  (k < length atom_labels)%nat ->
  number_atoms atom_labels start !! k
    = Some (start + Z.of_nat (count_N (take (S k) atom_labels)))%Z.
Proof.
  revert start k. induction atom_labels as [| al rest IH]; intros start k Hk;
    [simpl in Hk; lia |].
  unfold count_N. rewrite firstn_cons, filter_cons.
  destruct k as [| k]; simpl number_atoms.
  - simpl. rewrite take_0. destruct (decide (al = "N"%string)); simpl; f_equal; lia.
  - simpl lookup. rewrite IH by (simpl in Hk; lia). unfold count_N.
    destruct (decide (al = "N"%string)); simpl; f_equal; lia.
Qed.

Lemma length_number_atoms (atom_labels : list string) (start : Z) :
  length (number_atoms atom_labels start) = length atom_labels.
Proof.
  revert start. induction atom_labels as [| al rest IH]; intros start; simpl;
    [done |]. by rewrite IH.
Qed.

(** X8: generate_residue_numbers gives every atom a number: the atom of
    index k gets [start] plus the number of 'N' labels among the labels
    0..k, less one when the first label is 'N'; so the numbering begins at
    [start] whether or not the labels begin with 'N'. *)
Theorem generate_residue_numbers_spec (first : string) (rest : list string)
    (start : Z) :
  exists residues,
    generate_residue_numbers (first :: rest) start = Some residues /\
    length residues = S (length rest) /\
    residues !! 0%nat = Some start /\
    forall k, (k < S (length rest))%nat ->
      residues !! k
        = Some (start - (if decide (first = "N"%string) then 1 else 0)
                + Z.of_nat (count_N (take (S k) (first :: rest))))%Z.
Proof.
  eexists. split; [reflexivity |].
  assert (Hall : forall k, (k < S (length rest))%nat ->
    number_atoms (first :: rest)
      (if decide (first = "N"%string) then (start - 1)%Z else start) !! k
    = Some (start - (if decide (first = "N"%string) then 1 else 0)
            + Z.of_nat (count_N (take (S k) (first :: rest))))%Z).
  { intros k Hk. rewrite number_atoms_lookup by (simpl; lia).
    destruct (decide (first = "N"%string)); f_equal; lia. }
  split_and!.
  - apply length_number_atoms.
  - rewrite Hall by lia. unfold count_N. simpl take. rewrite take_0, filter_cons.
    destruct (decide (first = "N"%string)); simpl; f_equal; lia.
  - exact Hall.
Qed.

Lemma number_atoms_app (a b : list string) (start : Z) :
  number_atoms (a ++ b) start
    = number_atoms a start
      ++ number_atoms b (start + Z.of_nat (count_N a))%Z.
Proof.
  revert start. induction a as [| al a IH]; intros start; simpl.
  - f_equal. unfold count_N. simpl. lia.
  - rewrite IH. unfold count_N. rewrite filter_cons.
    destruct (decide (al = "N"%string)); simpl; do 3 f_equal; lia.
Qed.

Lemma number_atoms_no_N (a : list string) (start : Z) :
  "N"%string ∉ a -> number_atoms a start = replicate (length a) start.
Proof.
  revert start. induction a as [| al a IH]; intros start Hn; simpl; [done |].
  apply not_elem_of_cons in Hn as [Hne Hn].
  destruct (decide (al = "N"%string)); [congruence |]. by rewrite IH.
Qed.

Lemma count_N_no_N (a : list string) : "N"%string ∉ a -> count_N a = 0%nat.
Proof.
  induction a as [| al a IH]; intros Hn; [done |].
  apply not_elem_of_cons in Hn as [Hne Hn].
  unfold count_N in *. rewrite filter_cons.
  destruct (decide (al = "N"%string)); [congruence | by apply IH].
Qed.

(** Blocks of labels that each begin with their only 'N'. *)
Lemma number_atoms_blocks (blocks : list (list string)) (start : Z) :
  Forall (fun b => exists others, b = "N"%string :: others /\ "N"%string ∉ others)
    blocks ->
  number_atoms (concat blocks) start
    = concat (imap (fun j b => replicate (length b) (start + 1 + Z.of_nat j)%Z)
                blocks).
Proof.
  intros Hb. revert start. induction Hb as [| b blocks (others & -> & Hn) _ IH];
    intros start; [done |].
  rewrite imap_cons, !concat_cons, number_atoms_app.
  f_equal.
  - cbn [number_atoms]. rewrite decide_True by done.
    rewrite number_atoms_no_N by done. simpl. f_equal; [lia |].
    f_equal. lia.
  - pose proof (count_N_no_N others Hn) as Hc. unfold count_N in *.
    rewrite filter_cons_True by done. simpl length. rewrite Hc.
    rewrite IH. f_equal. apply imap_ext. intros j b _. simpl. f_equal. lia.
Qed.

Lemma characters_nonempty (s : string) : s <> EmptyString -> characters s <> [].
Proof. by destruct s. Qed.

(** X9: when every residue of a non-empty sequence has a label list that
    begins with 'N' and has no other 'N', generate_residue_numbers on the
    labels of generate_atom_labels gives all the atoms of the j-th
    residue the number start + j. *)
Theorem residue_numbers_of_sequence (input_seq : string)
    (AL : gmap string (list string)) (start : Z) :
  input_seq <> EmptyString ->
  (forall r, r ∈ characters input_seq ->
     exists others, AL !! r = Some ("N"%string :: others) /\ "N"%string ∉ others) ->
  exists labels,
    generate_atom_labels input_seq AL = Some labels /\
    generate_residue_numbers labels start
      = Some (concat (imap (fun j r =>
                        replicate (length (default [] (AL !! r)))
                          (start + Z.of_nat j)%Z)
                      (characters input_seq))).
Proof.
  intros Hne Hall.
  assert (generate_atom_labels input_seq AL = None <->
            exists r, r ∈ characters input_seq /\ AL !! r = None) as Hnone.
  { pose proof (generate_atom_labels_cases input_seq AL) as H.
    destruct (generate_atom_labels input_seq AL); [| done].
    destruct H as [_ Hkeys]. split; [done |].
    intros (r & Hin & Hr). destruct (Hkeys r Hin) as [x Hx]. congruence. }
  assert (forall labels, generate_atom_labels input_seq AL = Some labels ->
            labels = concat (map (fun r => default [] (AL !! r))
                               (characters input_seq))) as Hsome.
  { pose proof (generate_atom_labels_cases input_seq AL) as H.
    intros labels E. rewrite E in H. by destruct H. }
  destruct (generate_atom_labels input_seq AL) as [labels |] eqn:E.
  - exists labels. split; [done |]. rewrite (Hsome labels eq_refl).
    pose proof (characters_nonempty _ Hne) as Hc.
    destruct (characters input_seq) as [| r0 rs] eqn:Ec; [done |].
    destruct (Hall r0 ltac:(by apply elem_of_cons; left)) as (o0 & E0 & N0).
    set (blocks := map (fun r => default [] (AL !! r)) (r0 :: rs)).
    assert (Hblocks : Forall (fun b => exists others,
              b = "N"%string :: others /\ "N"%string ∉ others) blocks).
    { apply Forall_forall. intros b Hb. unfold blocks in Hb.
      apply (list_elem_of_fmap (fun r => default [] (AL !! r))) in Hb
        as (r & -> & Hr).
      destruct (Hall r Hr) as (o & Eo & No). rewrite Eo. by exists o. }
    assert (Hhead : exists tl, concat blocks = "N"%string :: tl).
    { subst blocks. simpl. rewrite E0. simpl. by eexists. }
    destruct Hhead as [tl Htl]. unfold generate_residue_numbers.
    rewrite Htl. destruct (decide _); [| done]. rewrite <- Htl.
    f_equal. rewrite number_atoms_blocks by done.
    subst blocks. change (map ?f ?l) with (f <$> l). rewrite imap_fmap.
    f_equal. apply imap_ext. intros j r _. simpl. f_equal. lia.
  - destruct (proj1 Hnone eq_refl) as (r & Hin & Hr).
    destruct (Hall r Hin) as (o & Eo & _). congruence.
Qed.

Lemma residue_numbers_of_sequence_witness :
  exists labels,
    generate_atom_labels "GA" Examples.two_letter_table = Some labels /\
    generate_residue_numbers labels 1
      = Some (concat (imap (fun j r =>
                        replicate
                          (length (default [] (Examples.two_letter_table !! r)))
                          (1 + Z.of_nat j)%Z)
                      (characters "GA"))).
Proof.
  apply (residue_numbers_of_sequence "GA" Examples.two_letter_table 1).
  - discriminate.
  - intros r Hr. simpl in Hr.
    apply elem_of_cons in Hr as [-> | Hr];
      [| apply elem_of_cons in Hr as [-> | Hr]; [| by apply elem_of_nil in Hr]].
    + exists ["CA"; "C"; "O"]%string. split; [reflexivity |].
      rewrite !not_elem_of_cons. split_and!; try discriminate.
      apply not_elem_of_nil.
    + exists ["CA"; "C"; "O"; "CB"]%string. split; [reflexivity |].
      rewrite !not_elem_of_cons. split_and!; try discriminate.
      apply not_elem_of_nil.
Defined.

Lemma count_backbone_app (a b : list string) :
  count_backbone (a ++ b) = (count_backbone a + count_backbone b)%nat.
Proof. unfold count_backbone. by rewrite filter_app, length_app. Qed.

Lemma length_characters (s : string) : length (characters s) = String.length s.
Proof. induction s as [| c s IH]; simpl; [done | by rewrite IH]. Qed.

(** X10: when the label list of every residue of the sequence holds
    exactly three backbone labels (N, CA, C), the backbone buffer of main
    has three atoms per residue of the sequence. *)
Theorem backbone_budget (input_seq : string) (AL : gmap string (list string)) :
  (forall r, r ∈ characters input_seq ->
     exists residue_labels,
       AL !! r = Some residue_labels /\ count_backbone residue_labels = 3%nat) ->
  exists labels,
    generate_atom_labels input_seq AL = Some labels /\
    count_backbone labels = (3 * String.length input_seq)%nat.
Proof.
  intros Hall.
  assert (generate_atom_labels input_seq AL = None <->
            exists r, r ∈ characters input_seq /\ AL !! r = None) as Hnone.
  { pose proof (generate_atom_labels_cases input_seq AL) as H.
    destruct (generate_atom_labels input_seq AL); [| done].
    destruct H as [_ Hkeys]. split; [done |].
    intros (r & Hin & Hr). destruct (Hkeys r Hin) as [x Hx]. congruence. }
  assert (forall labels, generate_atom_labels input_seq AL = Some labels ->
            labels = concat (map (fun r => default [] (AL !! r))
                               (characters input_seq))) as Hsome.
  { pose proof (generate_atom_labels_cases input_seq AL) as H.
    intros labels E. rewrite E in H. by destruct H. }
  destruct (generate_atom_labels input_seq AL) as [labels |] eqn:E.
  - exists labels. split; [done |]. rewrite (Hsome labels eq_refl).
    rewrite <- length_characters. clear E Hnone Hsome.
    induction (characters input_seq) as [| r rs IH]; [done |].
    destruct (Hall r ltac:(by apply elem_of_cons; left)) as (ls & El & Hl).
    simpl. rewrite El, count_backbone_app, IH; simpl; [lia |].
    intros r' Hr'. apply Hall. by apply elem_of_cons; right.
  - destruct (proj1 Hnone eq_refl) as (r & Hin & Hr).
    destruct (Hall r Hin) as (ls & El & _). congruence.
Qed.

Lemma backbone_budget_witness :
  exists labels,
    generate_atom_labels "GA" Examples.two_letter_table = Some labels /\
    count_backbone labels = (3 * String.length "GA")%nat.
Proof.
  apply (backbone_budget "GA" Examples.two_letter_table).
  intros r Hr. simpl in Hr.
  apply elem_of_cons in Hr as [-> | Hr];
    [| apply elem_of_cons in Hr as [-> | Hr]; [| by apply elem_of_nil in Hr]].
  - exists ["N"; "CA"; "C"; "O"]%string. split; reflexivity.
  - exists ["N"; "CA"; "C"; "O"; "CB"]%string. split; reflexivity.
Defined.

(** ** How the growth loop ends *)

Section Outcomes.

Context (g : BondGeometry).
Context (make_coord_Q : vec3 -> vec3 -> vec3 -> R -> R -> R -> vec3).

(** A fragment either runs to its end or stops at a full buffer; either
    way the buffer keeps its length and the atoms below the cursor. *)
Lemma run_fragment_outcome (agls : list R) (s : build_state) :
  loop_invariant g s ->
  (exists s', run_fragment make_coord_Q agls s = Normal s' /\
     loop_invariant g s' /\ length (bb s') = length (bb s) /\
     (i s <= i s')%nat /\
     forall j, (j < i s)%nat -> bb s' !! j = bb s !! j) \/
  (exists s', run_fragment make_coord_Q agls s = IndexError s' /\
     length (bb s') = length (bb s) /\
     forall j, (j < i s)%nat -> bb s' !! j = bb s !! j).
Proof.
  intros Hinv.
  destruct (decide (i s + length agls <= length (bb s))%nat) as [Hfit | Hover].
  - left.
    destruct (run_fragment_fits g make_coord_Q agls s Hinv Hfit)
      as (s' & Hrun & Hinv' & Hi & Hlen & _ & Hold & _).
    exists s'. split_and!; try done. lia.
  - right.
    destruct (run_fragment_overflow g make_coord_Q agls s Hinv ltac:(lia))
      as (s' & s'' & Hrun & Hpre & Hbb & _ & Hlen).
    pose proof Hinv as (_ & _ & _ & Hi).
    destruct (run_fragment_fits g make_coord_Q
                (take (length (bb s) - i s) agls) s Hinv)
      as (s3 & Hrun3 & _ & _ & _ & _ & Hold & _).
    { rewrite length_take. lia. }
    rewrite Hpre in Hrun3. injection Hrun3 as <-.
    exists s'. rewrite Hbb. by split_and!.
Qed.

(** X11: once the chain is seeded and the pool is not empty, the growth
    loop raises nothing: after any number of draws it is either still
    running or it has left with a chain that has the length of the buffer
    and, below the cursor it started from, the atoms it started with. *)
Theorem growth_keeps_placed_atoms (angles : list (list R))
    (slices : list (nat * nat)) (RC : nat -> nat)
    (fuel k : nat) (s : build_state) :
  loop_invariant g s -> slices <> [] ->
  grow make_coord_Q angles slices RC fuel k s = None \/
  exists final,
    grow make_coord_Q angles slices RC fuel k s = Some (Saved final) /\
    length final = length (bb s) /\
    forall j, (j < i s)%nat -> final !! j = bb s !! j.
Proof.
  intros Hinv Hne. revert k s Hinv.
  induction fuel as [| fuel IH]; intros k s Hinv; [by left |].
  destruct (draw_some angles slices RC k Hne) as (sl & _ & Hk).
  simpl. rewrite Hk.
  destruct (run_fragment_outcome
              (slice_1_m2 (ravel (rows_of angles sl))) s Hinv)
    as [(s' & -> & Hinv' & Hlen & Hi & Hold) | (s' & -> & Hlen & Hold)].
  - destruct (IH (S k) s' Hinv') as [Hnone | (final & Hf & Hflen & Hfold)].
    + by left.
    + right. exists final. split_and!; try done; [congruence |].
      intros j Hj. rewrite Hfold by lia. by apply Hold.
  - right. by exists (bb s').
Qed.

End Outcomes.

Lemma growth_keeps_placed_atoms_witness :
  grow place_with_make_coord Examples.two_residues Examples.both_residues
    Examples.first_choice 2 0 Examples.start_state = None \/
  exists final,
    grow place_with_make_coord Examples.two_residues Examples.both_residues
      Examples.first_choice 2 0 Examples.start_state = Some (Saved final) /\
    length final = length (bb Examples.start_state) /\
    forall j, (j < i Examples.start_state)%nat ->
      final !! j = bb Examples.start_state !! j.
Proof.
  apply (growth_keeps_placed_atoms sample_geometry).
  - exact start_state_invariant.
  - discriminate.
Defined.

Lemma seed_short (g : BondGeometry)
    (make_coord_Q : vec3 -> vec3 -> vec3 -> R -> R -> R -> vec3) (n : nat) :
  (n < 3)%nat -> seed g make_coord_Q n = None.
Proof.
  intros Hn. unfold seed. destruct (decide (1 < n)%nat); [| done].
  repeat case_match; try done; lia.
Qed.

(** X12: with fewer than three backbone atoms main never reaches the
    growth loop: the buffer has no row for the seed and an exception leaves
    main outside any try, whatever the database holds. *)
Theorem main_short_buffer (g : BondGeometry)
    (make_coord_Q : vec3 -> vec3 -> vec3 -> R -> R -> R -> vec3)
    (angles : list (list R)) (slices : list (nat * nat)) (RC : nat -> nat)
    (fuel : nat) (atom_labels : list string) :
  (count_backbone atom_labels < 3)%nat ->
  main g make_coord_Q angles slices RC fuel atom_labels = Some Crashed.
Proof. intros Hn. unfold main. by rewrite seed_short. Qed.

Lemma main_short_buffer_witness :
  main sample_geometry place_with_make_coord Examples.two_residues
    Examples.both_residues Examples.first_choice 0 ["N"; "CA"]%string
    = Some Crashed.
Proof.
  apply main_short_buffer.
  replace (count_backbone ["N"; "CA"]%string) with 2%nat by reflexivity. lia.
Defined.

(** X13: with an empty pool of slices and a buffer of at least three
    atoms, main leaves with the IndexError of random.choice at the first
    draw: the draw is outside the try. *)
Theorem main_empty_pool (g : BondGeometry)
    (make_coord_Q : vec3 -> vec3 -> vec3 -> R -> R -> R -> vec3)
    (angles : list (list R)) (RC : nat -> nat)
    (fuel : nat) (atom_labels : list string) :
  (2 < count_backbone atom_labels)%nat ->
  main g make_coord_Q angles [] RC (S fuel) atom_labels = Some Crashed.
Proof.
  intros Hn. unfold main.
  destruct (seed_ok g make_coord_Q _ Hn) as (s0 & -> & _). done.
Qed.

Lemma main_empty_pool_witness :
  main sample_geometry place_with_make_coord Examples.two_residues []
    Examples.first_choice 1 ["N"; "CA"; "C"]%string = Some Crashed.
Proof.
  apply main_empty_pool.
  replace (count_backbone ["N"; "CA"; "C"]%string) with 3%nat by reflexivity.
  lia.
Defined.

Lemma length_ravel_three (rows : list (list R)) :
  Forall (fun row => length row = 3%nat) rows ->
  length (ravel rows) = (3 * length rows)%nat.
Proof.
  induction 1 as [| row rows Hrow _ IH]; [done |].
  unfold ravel in *. simpl. rewrite length_app, IH, Hrow. lia.
Qed.

(** X14: in a database with three angles per residue, a fragment of L
    residues that fits the buffer places 3 (L - 1) atoms and leaves the two
    cycles where it found them: every fragment begins with the same pair of
    bond length and bend angle. *)
Theorem fragment_keeps_cycle_phase (g : BondGeometry)
    (make_coord_Q : vec3 -> vec3 -> vec3 -> R -> R -> R -> vec3)
    (rows : list (list R)) (s : build_state) :
  loop_invariant g s ->
  Forall (fun row => length row = 3%nat) rows ->
  (i s + 3 * (length rows - 1) <= length (bb s))%nat ->
  exists s',
    run_fragment make_coord_Q (slice_1_m2 (ravel rows)) s = Normal s' /\
    i s' = (i s + 3 * (length rows - 1))%nat /\
    (c_pos (bond_lens s') mod 3 = c_pos (bond_lens s) mod 3)%nat /\
    (c_pos (bond_bend s') mod 3 = c_pos (bond_bend s) mod 3)%nat.
Proof.
  intros Hinv Hrows Hfit.
  assert (Hlen : length (slice_1_m2 (ravel rows)) = (3 * (length rows - 1))%nat).
  { rewrite length_slice_1_m2, length_ravel_three by done. lia. }
  destruct (run_fragment_fits g make_coord_Q (slice_1_m2 (ravel rows)) s Hinv)
    as (s' & Hrun & Hinv' & Hi & _ & Hpos & _); [lia |].
  exists s'. rewrite Hlen in Hi, Hpos.
  destruct Hinv as (_ & _ & Hp & _). destruct Hinv' as (_ & _ & Hp' & _).
  assert (Hmod : (c_pos (bond_lens s') mod 3 = c_pos (bond_lens s) mod 3)%nat).
  { rewrite Hpos. replace (3 * (length rows - 1))%nat
      with ((length rows - 1) * 3)%nat by lia.
    apply Nat.Div0.mod_add. }
  split_and!; try done. by rewrite <- Hp', <- Hp.
Qed.

Lemma fragment_keeps_cycle_phase_witness :
  exists s',
    run_fragment place_with_make_coord
      (slice_1_m2 (ravel Examples.two_residues)) Examples.start_state = Normal s' /\
    i s' = 6%nat.
Proof.
  destruct (fragment_keeps_cycle_phase sample_geometry place_with_make_coord
              Examples.two_residues Examples.start_state start_state_invariant)
    as (s' & Hrun & Hi & _).
  - repeat constructor.
  - simpl. lia.
  - exists s'. split; [exact Hrun | exact Hi].
Defined.

End CliBuildFacts.

(** ** The clash validator *)

Module ClashValidatorFacts.
Import Vec VecFacts ClashValidator.

Lemma Rltb_true (x y : R) : Rltb x y = true <-> x < y.
Proof. unfold Rltb. destruct (Rlt_dec x y); split; (done || lra). Qed.

Lemma lookup_map {A B} (f : A -> B) (l : list A) (k : nat) :
  map f l !! k = f <$> (l !! k).
Proof. exact (list_lookup_fmap f l k). Qed.

Lemma lookup_concat_replicate {A} (l : list A) (r k : nat) :
  (k < r * length l)%nat ->
  concat (replicate r l) !! k = l !! (k mod length l)%nat.
Proof.
  revert k. induction r as [| r IH]; intros k Hk; [simpl in Hk; lia |].
  simpl. destruct (decide (k < length l)%nat) as [Hlt | Hge].
  - rewrite lookup_app_l by done. by rewrite Nat.mod_small.
  - rewrite lookup_app_r by lia. rewrite IH by (simpl in Hk; lia).
    f_equal. replace k with ((k - length l) + 1 * length l)%nat at 2 by lia.
    by rewrite Nat.Div0.mod_add.
Qed.

Lemma length_concat_replicate {A} (l : list A) (r : nat) :
  length (concat (replicate r l)) = (r * length l)%nat.
Proof.
  induction r as [| r IH]; simpl; [done |]. rewrite length_app, IH. lia.
Qed.

Lemma entry_lookup (m : matrix) (k l : nat) (row : list R) (x : R) :
  m !! k = Some row -> row !! l = Some x -> entry m k l = x.
Proof.
  intros Hk Hl. unfold entry. rewrite (nth_lookup_Some _ _ _ _ Hk).
  by rewrite (nth_lookup_Some _ _ _ _ Hl).
Qed.

Lemma allowed_distances_entry (a b : nat) :
  (a < 4)%nat -> (b < 4)%nat ->
  exists row, allowed_distances !! a = Some row /\ length row = 4%nat /\
              row !! b = Some (radius a + radius b).
Proof.
  intros Ha Hb.
  destruct a as [| [| [| [| a]]]]; [| | | | lia];
    (eexists; split; [reflexivity |]; split; [reflexivity |]);
    destruct b as [| [| [| [| b]]]]; try lia; reflexivity.
Qed.

Lemma ceil_div4_bound (y : nat) : (y <= ceil_div4 y * 4)%nat.
Proof.
  unfold ceil_div4. pose proof (Nat.div_mod_eq (y + 3) 4) as H.
  pose proof (Nat.mod_upper_bound (y + 3) 4 ltac:(lia)). lia.
Qed.

Lemma ceil_div4_exact (x : nat) : (x mod 4 = 0)%nat -> (ceil_div4 x * 4 = x)%nat.
Proof.
  intros Hx. unfold ceil_div4.
  pose proof (Nat.div_mod_eq x 4) as H. rewrite Hx in H.
  pose proof (Nat.div_mod_eq (x + 3) 4) as H2.
  pose proof (Nat.mod_upper_bound (x + 3) 4 ltac:(lia)).
  lia.
Qed.

(** The tiled table: entry (k, l) is the sum of the radii of the atom
    kinds k mod 4 and l mod 4. *)
Lemma tiled_entry (x y k l : nat) :
  (k < ceil_div4 x * 4)%nat -> (l < y)%nat ->
  exists row,
    columns_upto y (tile allowed_distances (ceil_div4 x) (ceil_div4 y)) !! k
      = Some row /\
    length row = y /\
    row !! l = Some (radius (k mod 4) + radius (l mod 4)).
Proof.
  intros Hk Hl. unfold columns_upto, tile.
  assert (Hk4 : (k mod 4 < 4)%nat) by (apply Nat.mod_upper_bound; lia).
  assert (Hl4 : (l mod 4 < 4)%nat) by (apply Nat.mod_upper_bound; lia).
  destruct (allowed_distances_entry _ _ Hk4 Hl4) as (row & Hrow & Hlen & Hent).
  pose proof (ceil_div4_bound y) as Hy.
  exists (take y (concat (replicate (ceil_div4 y) row))).
  split_and!.
  - rewrite lookup_map, lookup_concat_replicate
      by (rewrite length_map; exact Hk).
    rewrite length_map. change (length allowed_distances) with 4%nat.
    rewrite lookup_map, Hrow. done.
  - rewrite length_take, length_concat_replicate, Hlen. lia.
  - rewrite lookup_take_lt by done.
    rewrite lookup_concat_replicate by (rewrite Hlen; lia).
    by rewrite Hlen.
Qed.

Lemma any_row_true (m : list (list bool)) :
  any_row m = true <->
  exists k l row, m !! k = Some row /\ row !! l = Some true.
Proof.
  unfold any_row. rewrite existsb_exists. split.
  - intros (row & Hin & Hrow). apply existsb_exists in Hrow as (b & Hb & ->).
    apply list_elem_of_In, list_elem_of_lookup in Hin as [k Hk].
    apply list_elem_of_In, list_elem_of_lookup in Hb as [l Hl].
    by exists k, l, row.
  - intros (k & l & row & Hk & Hl). exists row. split.
    + by eapply list_elem_of_In, list_elem_of_lookup_2.
    + apply existsb_exists. exists true. split; [| done].
      by eapply list_elem_of_In, list_elem_of_lookup_2.
Qed.

Lemma broadcast_index_lt (n k : nat) : (k < n)%nat -> broadcast_index n k = k.
Proof. intros H. unfold broadcast_index. destruct (decide _); lia. Qed.

(** [a < b] on two arrays of one shape: entry by entry. *)
Lemma less_same_shape (a b : matrix) (r c : nat) :
  shape a = (r, c) -> shape b = (r, c) ->
  exists m, less a b = Some m /\
    (any_row m = true <->
     exists k l, (k < r)%nat /\ (l < c)%nat /\ entry a k l < entry b k l).
Proof.
  intros Ha Hb. unfold less. rewrite Ha, Hb. unfold broadcast_dim.
  destruct (decide (r = r)); [| done]. destruct (decide (c = c)); [| done].
  eexists. split; [reflexivity |]. rewrite any_row_true. split.
  - intros (k & l & row & Hk & Hl).
    rewrite lookup_map in Hk. destruct (seq 0 r !! k) as [k' |] eqn:Ek; [| done].
    apply lookup_seq in Ek as [-> Hkr]. simpl in Hk. injection Hk as <-.
    rewrite lookup_map in Hl. destruct (seq 0 c !! l) as [l' |] eqn:El; [| done].
    apply lookup_seq in El as [-> Hlc]. simpl in Hl. injection Hl as Hl.
    apply Rltb_true in Hl. rewrite !broadcast_index_lt in Hl by done.
    by exists k, l.
  - intros (k & l & Hk & Hl & Hlt). exists k, l. eexists. split.
    + rewrite lookup_map, lookup_seq_lt by done. reflexivity.
    + rewrite lookup_map, lookup_seq_lt by done. simpl. f_equal.
      apply Rltb_true. by rewrite !broadcast_index_lt.
Qed.

Lemma concatenate_some (w : list residue) (atoms : list vec3) :
  concatenate w = Some atoms -> atoms = concat w /\ atoms <> [].
Proof.
  unfold concatenate. destruct w as [| r w]; [done |].
  destruct (existsb _ _) eqn:E; [done |]. intros [= <-]. split; [done |].
  simpl in E. apply orb_false_elim in E as [E _].
  apply bool_decide_eq_false in E. simpl. by destruct r.
Qed.

Lemma cdist_some (XA XB : list vec3) :
  XA <> [] -> XB <> [] ->
  cdist XA XB = Some (map (fun u => map (fun v => euclidean u v) XB) XA) /\
  shape (map (fun u => map (fun v => euclidean u v) XB) XA)
    = (length XA, length XB).
Proof.
  intros Ha Hb. destruct XA as [| a XA]; [done |]. destruct XB as [| b XB]; [done |].
  split; [done |]. unfold shape. simpl. by rewrite !length_map.
Qed.

Lemma cdist_entry (XA XB : list vec3) (k l : nat) (u v : vec3) :
  XA !! k = Some u -> XB !! l = Some v ->
  entry (map (fun u => map (fun v => euclidean u v) XB) XA) k l = euclidean u v.
Proof.
  intros Hk Hl. eapply entry_lookup.
  - rewrite lookup_map, Hk. reflexivity.
  - rewrite lookup_map, Hl. reflexivity.
Qed.

Lemma tiled_shape (x y : nat) :
  (0 < x)%nat -> (x mod 4 = 0)%nat ->
  shape (columns_upto y (tile allowed_distances (ceil_div4 x) (ceil_div4 y)))
    = (x, y).
Proof.
  intros Hx Hmod. pose proof (ceil_div4_exact x Hmod) as Hc.
  unfold shape. f_equal.
  - unfold columns_upto, tile.
    rewrite length_map, length_concat_replicate, length_map.
    change (length allowed_distances) with 4%nat. lia.
  - destruct y as [| y].
    + unfold columns_upto. by destruct (tile _ _ _).
    + destruct (tiled_entry x (S y) 0 0 ltac:(lia) ltac:(lia))
        as (row & Hrow & Hlen & _).
      by rewrite (nth_lookup_Some _ _ _ _ Hrow).
Qed.

(** What [clash_found_vectorized] computes when both windows hold atoms
    and the settled one holds whole residues. *)
Lemma vectorized_threshold (current_chain last_chain : chain)
    (settled news : list vec3) :
  concatenate (settled_window last_chain) = Some settled ->
  concatenate (new_window current_chain last_chain) = Some news ->
  (length settled mod 4 = 0)%nat ->
  exists b, vectorized current_chain last_chain = Return b /\
    (b = true <->
     exists k l u v, settled !! k = Some u /\ news !! l = Some v /\
       euclidean u v < radius (k mod 4) + radius (l mod 4)).
Proof.
  intros Hs Hn Hmod. unfold vectorized.
  unfold settled_window in Hs. unfold new_window in Hn. rewrite Hs, Hn.
  destruct (concatenate_some _ _ Hs) as [_ Hsne].
  destruct (concatenate_some _ _ Hn) as [_ Hnne].
  destruct (cdist_some settled news Hsne Hnne) as [-> Hshape].
  rewrite Hshape.
  assert (Hx : (0 < length settled)%nat) by (destruct settled; [done | simpl; lia]).
  destruct (less_same_shape _ _ _ _ Hshape (tiled_shape _ (length news) Hx Hmod))
    as (m & -> & Hm).
  exists (any_row m). split; [done |]. rewrite Hm. split.
  - intros (k & l & Hk & Hl & Hlt).
    destruct (lookup_lt_is_Some_2 settled k Hk) as [u Hu].
    destruct (lookup_lt_is_Some_2 news l Hl) as [v Hv].
    exists k, l, u, v. split_and!; try done.
    rewrite (cdist_entry _ _ _ _ _ _ Hu Hv) in Hlt.
    destruct (tiled_entry (length settled) (length news) k l)
      as (row & Hrow & _ & Hent);
      [rewrite ceil_div4_exact by done; done | done |].
    by rewrite (entry_lookup _ _ _ _ _ Hrow Hent) in Hlt.
  - intros (k & l & u & v & Hu & Hv & Hlt).
    pose proof (lookup_lt_Some _ _ _ Hu) as Hk.
    pose proof (lookup_lt_Some _ _ _ Hv) as Hl.
    exists k, l. split_and!; try done.
    rewrite (cdist_entry _ _ _ _ _ _ Hu Hv).
    destruct (tiled_entry (length settled) (length news) k l)
      as (row & Hrow & _ & Hent);
      [rewrite ceil_div4_exact by done; done | done |].
    by rewrite (entry_lookup _ _ _ _ _ Hrow Hent).
Qed.

(** C7: the threshold of the clash predicate is strict, against the sum of
    the radii N = 1.55, CA = 1.70, C = 1.70, O = 1.52: a pair of atoms
    strictly closer than the sum of its radii is a clash, and when every
    pair is at least the sum of its radii apart, some of them exactly,
    there is no clash. *)
Theorem clash_threshold_is_strict (current_chain last_chain : chain)
    (settled news : list vec3) :
  concatenate (settled_window last_chain) = Some settled ->
  concatenate (new_window current_chain last_chain) = Some news ->
  (length settled mod 4 = 0)%nat ->
  VDW = [1.55; 1.7; 1.7; 1.52] /\
  ((exists k l u v, settled !! k = Some u /\ news !! l = Some v /\
      euclidean u v < radius (k mod 4) + radius (l mod 4)) ->
   fst (clash_found_vectorized init current_chain last_chain) = Return true) /\
  ((forall k l u v, settled !! k = Some u -> news !! l = Some v ->
      radius (k mod 4) + radius (l mod 4) <= euclidean u v) ->
   fst (clash_found_vectorized init current_chain last_chain) = Return false).
Proof.
  intros Hs Hn Hmod. split; [done |].
  destruct (vectorized_threshold _ _ _ _ Hs Hn Hmod) as (b & Hb & Hiff).
  unfold clash_found_vectorized. cbn [fst]. rewrite Hb. split.
  - intros Hex. f_equal. by apply Hiff.
  - intros Hall. f_equal. destruct b; [| done].
    destruct (proj1 Hiff eq_refl) as (k & l & u & v & Hu & Hv & Hlt).
    specialize (Hall k l u v Hu Hv). lra.
Qed.

Lemma le_sqrt (a q : R) : 0 <= a -> a * a <= q -> a <= sqrt q.
Proof.
  intros Ha Hq. rewrite <- (sqrt_square a Ha). by apply sqrt_le_1_alt.
Qed.

Lemma clash_threshold_is_strict_witness :
  fst (clash_found_vectorized init Examples.current5 Examples.last3)
    = Return false.
Proof.
  destruct (clash_threshold_is_strict Examples.current5 Examples.last3
              (Examples.residue_at 0) Examples.boundary_residue)
    as (_ & _ & Hfar).
  - reflexivity.
  - reflexivity.
  - reflexivity.
  - apply Hfar. intros k l u v Hu Hv.
    destruct k as [| [| [| [| k]]]]; try discriminate Hu;
      injection Hu as <-;
      (destruct l as [| [| [| [| l]]]]; try discriminate Hv;
       injection Hv as <-;
       unfold radius, euclidean, norm, sumsq, sub; simpl;
       apply le_sqrt; lra).
Defined.

(** ** The windows *)

Lemma new_loop_scan (current_chain : chain) (previous_coords : residue)
    (m a : nat) :
  (a + m <= length current_chain)%nat ->
  new_loop current_chain previous_coords (seq a m)
    = scan_new previous_coords (take m (drop a current_chain)).
Proof.
  revert a. induction m as [| m IH]; intros a Ha; simpl; [done |].
  destruct (lookup_lt_is_Some_2 current_chain a ltac:(lia)) as [x Hx].
  rewrite Hx, (drop_S _ _ _ Hx). simpl. by rewrite IH by lia.
Qed.

Lemma seen_loop_scan (current_chain last_chain : chain)
    (new_indices : list nat) (news : list residue) (m a : nat) :
  (forall previous_coords,
     new_loop current_chain previous_coords new_indices
       = scan_new previous_coords news) ->
  (a + m <= length last_chain)%nat ->
  seen_loop current_chain last_chain (seq a m) new_indices
    = scan_seen (take m (drop a last_chain)) news.
Proof.
  intros Hnew. revert a. induction m as [| m IH]; intros a Ha; simpl; [done |].
  destruct (lookup_lt_is_Some_2 last_chain a ltac:(lia)) as [x Hx].
  rewrite Hx, (drop_S _ _ _ Hx). simpl. by rewrite Hnew, IH by lia.
Qed.

(** [clash_found] walks over the residues of the two windows. *)
Lemma incremental_scan (current_chain last_chain : chain) :
  incremental current_chain last_chain
    = scan_seen (settled_window last_chain) (new_window current_chain last_chain).
Proof.
  unfold incremental, range, settled_window, new_window.
  rewrite (seen_loop_scan current_chain last_chain _
             (drop (length last_chain + 1) current_chain)
             (length last_chain - 2 - 0) 0).
  - by rewrite drop_0, Nat.sub_0_r.
  - intros prev.
    destruct (decide (length last_chain + 1 <= length current_chain)%nat) as [Hle | Hgt].
    + rewrite new_loop_scan by lia. f_equal.
      apply take_ge. rewrite length_drop. lia.
    + replace (length current_chain - (length last_chain + 1))%nat with 0%nat by lia.
      rewrite drop_ge by lia. done.
  - lia.
Qed.



(** C9: neither method writes to the instance, and a second call with the
    same arguments returns what the first call returned. *)
Theorem clash_methods_leave_the_instance (self : validator)
    (current_chain last_chain : chain) :
  snd (clash_found self current_chain last_chain) = self /\
  snd (clash_found_vectorized self current_chain last_chain) = self /\
  clashes (snd (clash_found self current_chain last_chain)) = clashes self /\
  clashes (snd (clash_found_vectorized self current_chain last_chain)) = clashes self /\
  fst (clash_found (snd (clash_found self current_chain last_chain))
         current_chain last_chain)
    = fst (clash_found self current_chain last_chain) /\
  fst (clash_found_vectorized
         (snd (clash_found_vectorized self current_chain last_chain))
         current_chain last_chain)
    = fst (clash_found_vectorized self current_chain last_chain).
Proof. unfold clash_found, clash_found_vectorized. simpl. done. Qed.

(** C2: with two settled residues the window of the settled chain is
    empty; [clash_found] returns False and [clash_found_vectorized] raises
    the ValueError of [np.concatenate] on an empty list. *)
Theorem clash_methods_differ_on_empty_window :
  fst (clash_found init Examples.current4 Examples.last2) = Return false /\
  fst (clash_found_vectorized init Examples.current4 Examples.last2)
    = Raise ValueError /\
  fst (clash_found init Examples.current4 Examples.last2)
    <> fst (clash_found_vectorized init Examples.current4 Examples.last2).
Proof. split_and!; [reflexivity | reflexivity | discriminate]. Qed.


(** ** The two methods on canonical windows *)

Lemma canonical_lengths (w : list residue) (j : nat) (n : list vec3) :
  canonical w -> w !! j = Some n -> length n = 4%nat \/ length n = 3%nat.
Proof.
  revert j. induction w as [| r w IH]; intros j Hc Hj; [done |].
  destruct j as [| j]; simpl in Hj.
  - injection Hj as ->. destruct w; simpl in Hc; [done | left; tauto].
  - destruct w as [| r' w]; [done |]. destruct Hc as [_ Hc]. by eapply IH.
Qed.

Lemma div_mod_shift (l : nat) :
  (4 <= l)%nat -> (l / 4 = S ((l - 4) / 4) /\ l mod 4 = (l - 4) mod 4)%nat.
Proof.
  intros Hl. replace l with ((l - 4) + 1 * 4)%nat at 1 3 by lia.
  rewrite Nat.div_add by lia. rewrite Nat.Div0.mod_add. lia.
Qed.

(** The atom of flat index l of a canonical window is atom l mod 4 of
    residue l / 4. *)
Lemma concat_lookup_canonical (w : list residue) (l : nat) :
  canonical w ->
  concat w !! l = w !! (l / 4)%nat ≫= (fun r => r !! (l mod 4)%nat).
Proof.
  revert l. induction w as [| r w IH]; intros l Hc; [done |].
  assert (Hr : (length r <= 4)%nat).
  { destruct (canonical_lengths (r :: w) 0 r Hc eq_refl); lia. }
  destruct (decide (l < 4)%nat) as [Hlt | Hge].
  - rewrite Nat.div_small, Nat.mod_small by done. simpl.
    destruct w as [| r' w].
    + simpl. by rewrite app_nil_r.
    + destruct Hc as [Hlen _]. by rewrite lookup_app_l by lia.
  - destruct (div_mod_shift l ltac:(lia)) as [-> ->]. simpl.
    destruct w as [| r' w].
    + simpl. rewrite app_nil_r. apply lookup_ge_None_2. lia.
    + destruct Hc as [Hlen Hc]. rewrite lookup_app_r by lia.
      rewrite Hlen. by apply IH.
Qed.

Lemma whole_canonical (w : list residue) :
  Forall (fun r => length r = 4%nat) w -> canonical w.
Proof.
  induction 1 as [| r w Hr Hw IH]; [done |].
  destruct w; simpl; [by left | done].
Qed.

Lemma whole_length_concat (w : list residue) :
  Forall (fun r => length r = 4%nat) w ->
  length (concat w) = (length w * 4)%nat.
Proof.
  induction 1 as [| r w Hr Hw IH]; [done |].
  simpl. rewrite length_app, IH, Hr. lia.
Qed.

Lemma canonical_concatenate (w : list residue) :
  canonical w -> w <> [] -> concatenate w = Some (concat w).
Proof.
  intros Hc Hne. unfold concatenate. destruct w as [| r w]; [done |].
  destruct (existsb _ _) eqn:E; [| done].
  apply existsb_exists in E as (n & Hin & Hn).
  apply bool_decide_eq_true in Hn. subst n.
  apply list_elem_of_In, list_elem_of_lookup in Hin as [j Hj].
  destruct (canonical_lengths _ _ _ Hc Hj); simpl in *; lia.
Qed.

Lemma less_columns_mismatch (a b : matrix) (r : nat) :
  shape a = (r, 3%nat) -> shape b = (r, 4%nat) -> less a b = None.
Proof.
  intros Ha Hb. unfold less. rewrite Ha, Hb. unfold broadcast_dim.
  destruct (decide (r = r)); [| done]. done.
Qed.

Lemma transposed_entry (a c : nat) :
  (a < 4)%nat -> (c < 3)%nat ->
  entry (transpose (rows_upto_last allowed_distances)) a c
    = radius c + radius a.
Proof.
  intros Ha Hc.
  destruct a as [| [| [| [| a]]]]; [| | | | lia];
    destruct c as [| [| [| c]]]; try lia; reflexivity.
Qed.

Lemma allowed_entry (a c : nat) :
  (a < 4)%nat -> (c < 4)%nat ->
  entry allowed_distances a c = radius a + radius c.
Proof.
  intros Ha Hc.
  destruct (allowed_distances_entry a c Ha Hc) as (row & Hrow & _ & Hent).
  by apply (entry_lookup _ _ _ _ _ Hrow Hent).
Qed.

(** One pair of residues, the settled one whole, the new one with three or
    four atoms: no error, and True exactly when some pair of atoms is
    strictly closer than the sum of its radii. *)
Lemma residue_pair_threshold (s n : list vec3) :
  length s = 4%nat -> (length n = 4%nat \/ length n = 3%nat) ->
  exists b, residue_pair s n = Return b /\
    (b = true <->
     exists a c u v, s !! a = Some u /\ n !! c = Some v /\
       euclidean u v < radius a + radius c).
Proof.
  intros Hs Hn.
  assert (Hsne : s <> []) by (intros ->; simpl in Hs; lia).
  assert (Hnne : n <> []) by (intros ->; simpl in Hn; lia).
  destruct (cdist_some s n Hsne Hnne) as [Hd Hshape].
  rewrite Hs in Hshape. unfold residue_pair, try_block, except_block.
  rewrite Hd.
  assert (Hiff : forall (al : matrix) (m : list (list bool)),
    (forall a c, (a < 4)%nat -> (c < length n)%nat ->
       entry al a c = radius a + radius c) ->
    (any_row m = true <->
       exists k l, (k < 4)%nat /\ (l < length n)%nat /\
         entry (map (fun u => map (fun v => euclidean u v) n) s) k l
           < entry al k l) ->
    any_row m = true <->
      exists a c u v, s !! a = Some u /\ n !! c = Some v /\
        euclidean u v < radius a + radius c).
  { intros al m Hal Hm. rewrite Hm. split.
    - intros (k & l & Hk & Hl & Hlt).
      destruct (lookup_lt_is_Some_2 s k ltac:(lia)) as [u Hu].
      destruct (lookup_lt_is_Some_2 n l Hl) as [v Hv].
      exists k, l, u, v. split_and!; try done.
      by rewrite (cdist_entry _ _ _ _ _ _ Hu Hv), Hal in Hlt.
    - intros (a & c & u & v & Hu & Hv & Hlt).
      pose proof (lookup_lt_Some _ _ _ Hu) as Ha.
      pose proof (lookup_lt_Some _ _ _ Hv) as Hc.
      exists a, c. split_and!; try lia.
      rewrite (cdist_entry _ _ _ _ _ _ Hu Hv), Hal by lia. done. }
  destruct Hn as [Hn | Hn]; rewrite Hn in Hshape.
  - destruct (less_same_shape _ allowed_distances _ _ Hshape eq_refl)
      as (m & -> & Hm).
    exists (any_row m). split; [done |].
    apply (Hiff allowed_distances); rewrite Hn; [| done].
    intros a c Ha Hc. by apply allowed_entry.
  - rewrite (less_columns_mismatch _ allowed_distances 4 Hshape eq_refl).
    destruct (less_same_shape _ (transpose (rows_upto_last allowed_distances))
                _ _ Hshape eq_refl) as (m & -> & Hm).
    exists (any_row m). split; [done |].
    apply (Hiff (transpose (rows_upto_last allowed_distances))); rewrite Hn; [| done].
    intros a c Ha Hc. rewrite transposed_entry by done. apply Rplus_comm.
Qed.

Lemma scan_new_threshold (s : list vec3) (news : list residue) :
  length s = 4%nat -> canonical news ->
  exists b, scan_new s news = Return b /\
    (b = true <->
     exists j n a c u v, news !! j = Some n /\
       s !! a = Some u /\ n !! c = Some v /\
       euclidean u v < radius a + radius c).
Proof.
  intros Hs. induction news as [| n news IH]; intros Hc.
  - exists false. split; [done |]. split; [done |].
    by intros (j & n & a & c & u & v & Hj & _).
  - destruct (residue_pair_threshold s n Hs
                (canonical_lengths (n :: news) 0 n Hc eq_refl))
      as (b & Hb & Hiff).
    assert (Hc' : canonical news).
    { destruct news; [done |]. by destruct Hc. }
    destruct (IH Hc') as (b' & Hb' & Hiff').
    simpl. rewrite Hb. destruct b.
    + exists true. split; [done |]. split; [| done]. intros _.
      destruct (proj1 Hiff eq_refl) as (a & c & u & v & H).
      by exists 0%nat, n, a, c, u, v.
    + exists b'. split; [done |]. rewrite Hiff'. split.
      * intros (j & n' & a & c & u & v & Hj & H).
        by exists (S j), n', a, c, u, v.
      * intros ([| j] & n' & a & c & u & v & Hj & H); simpl in Hj.
        -- injection Hj as <-.
           assert (false = true); [| done].
           apply Hiff. by exists a, c, u, v.
        -- by exists j, n', a, c, u, v.
Qed.

Lemma scan_seen_threshold (seen news : list residue) :
  Forall (fun r => length r = 4%nat) seen -> canonical news ->
  exists b, scan_seen seen news = Return b /\
    (b = true <->
     exists k s j n a c u v, seen !! k = Some s /\ news !! j = Some n /\
       s !! a = Some u /\ n !! c = Some v /\
       euclidean u v < radius a + radius c).
Proof.
  intros Hseen Hc. induction Hseen as [| s seen Hs Hseen IH].
  - exists false. split; [done |]. split; [done |].
    by intros (k & s & j & n & a & c & u & v & Hk & _).
  - destruct (scan_new_threshold s news Hs Hc) as (b & Hb & Hiff).
    destruct IH as (b' & Hb' & Hiff').
    simpl. rewrite Hb. destruct b.
    + exists true. split; [done |]. split; [| done]. intros _.
      destruct (proj1 Hiff eq_refl) as (j & n & a & c & u & v & H).
      by exists 0%nat, s, j, n, a, c, u, v.
    + exists b'. split; [done |]. rewrite Hiff'. split.
      * intros (k & s' & j & n & a & c & u & v & Hk & H).
        by exists (S k), s', j, n, a, c, u, v.
      * intros ([| k] & s' & j & n & a & c & u & v & Hk & H); simpl in Hk.
        -- injection Hk as <-.
           assert (false = true); [| done].
           apply Hiff. by exists j, n, a, c, u, v.
        -- by exists k, s', j, n, a, c, u, v.
Qed.

Lemma flat_index (w : list residue) (j a : nat) (n : list vec3) (v : vec3) :
  canonical w -> w !! j = Some n -> n !! a = Some v ->
  concat w !! (j * 4 + a)%nat = Some v /\ ((j * 4 + a) mod 4 = a)%nat.
Proof.
  intros Hc Hj Ha.
  assert (Hlt : (a < 4)%nat).
  { pose proof (lookup_lt_Some _ _ _ Ha).
    destruct (canonical_lengths _ _ _ Hc Hj); lia. }
  assert (Hdiv : ((j * 4 + a) / 4 = j)%nat).
  { rewrite Nat.add_comm, Nat.div_add by lia. rewrite Nat.div_small by done. done. }
  assert (Hmod : ((j * 4 + a) mod 4 = a)%nat).
  { rewrite Nat.add_comm, Nat.Div0.mod_add. by apply Nat.mod_small. }
  split; [| done].
  rewrite concat_lookup_canonical, Hdiv, Hmod, Hj by done. done.
Qed.

(** X15: where both windows hold residues, the settled window residues of
    four atoms and the new window canonical ones (four atoms each, the
    last one three or four), the two methods raise nothing and return the
    same boolean. *)
Lemma clash_methods_agree_on_canonical_windows (current_chain last_chain : chain) :
  settled_window last_chain <> [] ->
  new_window current_chain last_chain <> [] ->
  Forall (fun r => length r = 4%nat) (settled_window last_chain) ->
  canonical (new_window current_chain last_chain) ->
  exists b, vectorized current_chain last_chain = Return b /\
            incremental current_chain last_chain = Return b.
Proof.
  intros Hsne Hnne Hwhole Hcan.
  pose proof (whole_canonical _ Hwhole) as Hscan.
  destruct (vectorized_threshold current_chain last_chain _ _
              (canonical_concatenate _ Hscan Hsne)
              (canonical_concatenate _ Hcan Hnne))
    as (b & Hb & Hiff).
  { rewrite whole_length_concat by done. apply Nat.Div0.mod_mul. }
  destruct (scan_seen_threshold _ _ Hwhole Hcan) as (b' & Hb' & Hiff').
  exists b. split; [done |]. rewrite incremental_scan, Hb'. f_equal.
  apply eq_true_iff_eq. rewrite Hiff, Hiff'. split.
  - intros (k & s & j & n & a & c & u & v & Hk & Hj & Hu & Hv & Hlt).
    destruct (flat_index _ _ _ _ _ Hscan Hk Hu) as [Fu Mu].
    destruct (flat_index _ _ _ _ _ Hcan Hj Hv) as [Fv Mv].
    exists (k * 4 + a)%nat, (j * 4 + c)%nat, u, v.
    rewrite Mu, Mv. done.
  - intros (k & l & u & v & Hu & Hv & Hlt).
    rewrite concat_lookup_canonical in Hu by done.
    rewrite concat_lookup_canonical in Hv by done.
    destruct (settled_window last_chain !! (k / 4)%nat) as [s |] eqn:Es; [| done].
    destruct (new_window current_chain last_chain !! (l / 4)%nat) as [n |] eqn:En;
      [| done].
    simpl in Hu, Hv.
    by exists (k / 4)%nat, s, (l / 4)%nat, n, (k mod 4)%nat, (l mod 4)%nat, u, v.
Qed.

Lemma clash_methods_agree_on_canonical_windows_witness :
  exists b, vectorized Examples.current5 Examples.last3 = Return b /\
            incremental Examples.current5 Examples.last3 = Return b.
Proof.
  apply clash_methods_agree_on_canonical_windows.
  - discriminate.
  - discriminate.
  - repeat constructor.
  - left. reflexivity.
Defined.

(** X16: on a settled window of residues of four atoms and a canonical new
    window (either may be empty), clash_found raises nothing and returns
    True exactly when some atom of a settled residue and some atom of a new
    residue are strictly closer than the sum of the radii of their
    positions in the residue. *)
Theorem clash_found_threshold (current_chain last_chain : chain) :
  Forall (fun r => length r = 4%nat) (settled_window last_chain) ->
  canonical (new_window current_chain last_chain) ->
  exists b, fst (clash_found init current_chain last_chain) = Return b /\
    (b = true <->
     exists k s j n a c u v,
       settled_window last_chain !! k = Some s /\
       new_window current_chain last_chain !! j = Some n /\
       s !! a = Some u /\ n !! c = Some v /\
       euclidean u v < radius a + radius c).
Proof.
  intros Hw Hc. unfold clash_found. cbn [fst]. rewrite incremental_scan.
  by apply scan_seen_threshold.
Qed.

Lemma clash_found_threshold_witness :
  exists b, fst (clash_found init Examples.current5 Examples.last3) = Return b.
Proof.
  destruct (clash_found_threshold Examples.current5 Examples.last3)
    as (b & Hb & _).
  - repeat constructor.
  - left. reflexivity.
  - by exists b.
Defined.

Lemma scan_seen_no_new (seen : list residue) : scan_seen seen [] = Return false.
Proof. induction seen as [| s seen IH]; [done | exact IH]. Qed.

(** X17: when one of the two windows is empty (at most two settled
    residues, or no residue of the current chain beyond index
    len(last_chain)), clash_found returns False and
    clash_found_vectorized raises ValueError. *)
Theorem clash_methods_on_empty_window (current_chain last_chain : chain) :
  settled_window last_chain = [] \/ new_window current_chain last_chain = [] ->
  fst (clash_found init current_chain last_chain) = Return false /\
  fst (clash_found_vectorized init current_chain last_chain) = Raise ValueError.
Proof.
  intros He. unfold clash_found, clash_found_vectorized. cbn [fst]. split.
  - rewrite incremental_scan. destruct He as [-> | ->]; [done |].
    apply scan_seen_no_new.
  - unfold vectorized. unfold settled_window, new_window in He.
    destruct He as [-> | ->]; [done |].
    by destruct (concatenate (take (length last_chain - 2) last_chain)).
Qed.

Lemma clash_methods_on_empty_window_witness :
  fst (clash_found init Examples.current4 Examples.last2) = Return false /\
  fst (clash_found_vectorized init Examples.current4 Examples.last2)
    = Raise ValueError.
Proof.
  apply clash_methods_on_empty_window. left. reflexivity.
Defined.

Lemma tiled_shape_rows (x y : nat) :
  (0 < x)%nat ->
  shape (columns_upto y (tile allowed_distances (ceil_div4 x) (ceil_div4 y)))
    = ((ceil_div4 x * 4)%nat, y).
Proof.
  intros Hx. pose proof (ceil_div4_bound x) as Hc.
  unfold shape. f_equal.
  - unfold columns_upto, tile.
    rewrite length_map, length_concat_replicate, length_map. done.
  - destruct y as [| y].
    + unfold columns_upto. by destruct (tile _ _ _).
    + destruct (tiled_entry x (S y) 0 0 ltac:(lia) ltac:(lia))
        as (row & Hrow & Hlen & _).
      by rewrite (nth_lookup_Some _ _ _ _ Hrow).
Qed.

Lemma less_rows_mismatch (a b : matrix) (ra rb ca cb : nat) :
  shape a = (ra, ca) -> shape b = (rb, cb) ->
  ra <> rb -> ra <> 1%nat -> rb <> 1%nat -> less a b = None.
Proof.
  intros Ha Hb H1 H2 H3. unfold less. rewrite Ha, Hb. unfold broadcast_dim.
  repeat (destruct (decide _); try done).
Qed.

(** X18: when both windows hold atoms and the number of settled atoms is
    neither 1 nor a multiple of 4 (a settled residue without its O, for
    one), clash_found_vectorized raises ValueError: the thresholds are
    tiled to whole residues and cut to size along the new atoms only. *)
Theorem vectorized_partial_settled_residue (current_chain last_chain : chain)
    (settled news : list vec3) :
  concatenate (settled_window last_chain) = Some settled ->
  concatenate (new_window current_chain last_chain) = Some news ->
  (length settled mod 4 <> 0)%nat -> length settled <> 1%nat ->
  fst (clash_found_vectorized init current_chain last_chain) = Raise ValueError.
Proof.
  intros Hs Hn Hmod H1. unfold clash_found_vectorized. cbn [fst].
  unfold vectorized. unfold settled_window in Hs. unfold new_window in Hn.
  rewrite Hs, Hn.
  destruct (concatenate_some _ _ Hs) as [_ Hsne].
  destruct (concatenate_some _ _ Hn) as [_ Hnne].
  destruct (cdist_some settled news Hsne Hnne) as [-> Hshape].
  rewrite Hshape.
  assert (Hx : (0 < length settled)%nat) by (destruct settled; [done | simpl; lia]).
  rewrite (less_rows_mismatch _ _ _ _ _ _ Hshape
             (tiled_shape_rows (length settled) (length news) Hx)); [done | | done |].
  - intros E. apply Hmod. rewrite E. apply Nat.Div0.mod_mul.
  - pose proof (ceil_div4_bound (length settled)). lia.
Qed.

Lemma vectorized_partial_settled_residue_witness :
  fst (clash_found_vectorized init Examples.current5 Examples.last3_short)
    = Raise ValueError.
Proof.
  apply (vectorized_partial_settled_residue Examples.current5
           Examples.last3_short Examples.short_residue Examples.boundary_residue).
  - reflexivity.
  - reflexivity.
  - simpl. lia.
  - simpl. lia.
Defined.

(** X19: clash_found raises ValueError at a settled residue of three atoms
    as soon as it meets a new residue of three or four atoms: neither the
    4 x 4 thresholds of the try nor the 4 x 3 thresholds of the except
    have three rows. *)
Theorem clash_found_partial_settled_residue (current_chain last_chain : chain)
    (s n : list vec3) (seen news : list (list vec3)) :
  settled_window last_chain = s :: seen ->
  new_window current_chain last_chain = n :: news ->
  length s = 3%nat -> (length n = 3%nat \/ length n = 4%nat) ->
  fst (clash_found init current_chain last_chain) = Raise ValueError.
Proof.
  intros Hs Hn Hls Hln. unfold clash_found. cbn [fst].
  rewrite incremental_scan, Hs, Hn. cbn [scan_seen scan_new].
  assert (Hsne : s <> []) by (intros ->; simpl in Hls; lia).
  assert (Hnne : n <> []) by (intros ->; simpl in Hln; lia).
  destruct (cdist_some s n Hsne Hnne) as [Hd Hshape]. rewrite Hls in Hshape.
  unfold residue_pair, try_block, except_block. rewrite Hd.
  rewrite (less_rows_mismatch _ allowed_distances _ 4 _ 4 Hshape eq_refl)
    by lia.
  rewrite (less_rows_mismatch _ (transpose (rows_upto_last allowed_distances))
             _ 4 _ 3 Hshape eq_refl) by lia.
  done.
Qed.

Lemma clash_found_partial_settled_residue_witness :
  fst (clash_found init Examples.current5 Examples.last3_short)
    = Raise ValueError.
Proof.
  apply (clash_found_partial_settled_residue Examples.current5
           Examples.last3_short Examples.short_residue Examples.boundary_residue
           [] []).
  - reflexivity.
  - reflexivity.
  - reflexivity.
  - right. reflexivity.
Defined.

(** ** Moving both chains *)

Lemma euclidean_moved (t u v : vec3) :
  euclidean (add u t) (add v t) = euclidean u v.
Proof. unfold euclidean. by rewrite LibcalcFacts.sub_add_same. Qed.

Lemma distances_moved (t : vec3) (XA XB : list vec3) :
  map (fun u => map (fun v => euclidean u v) (map (fun p => add p t) XB))
      (map (fun p => add p t) XA)
    = map (fun u => map (fun v => euclidean u v) XB) XA.
Proof.
  rewrite map_map. apply map_ext. intros u.
  rewrite map_map. apply map_ext. intros v. apply euclidean_moved.
Qed.

Lemma cdist_moved (t : vec3) (XA XB : list vec3) :
  cdist (map (fun p => add p t) XA) (map (fun p => add p t) XB) = cdist XA XB.
Proof.
  destruct XA as [| a XA]; [done |]. destruct XB as [| b XB]; [done |].
  rewrite (proj1 (cdist_some (map _ (a :: XA)) (map _ (b :: XB))
                    ltac:(done) ltac:(done))).
  rewrite (proj1 (cdist_some (a :: XA) (b :: XB) ltac:(done) ltac:(done))).
  f_equal. apply distances_moved.
Qed.

Lemma empty_residue_moved (t : vec3) (w : list (list vec3)) :
  existsb (fun r : list vec3 => bool_decide (r = []))
    (map (map (fun p => add p t)) w)
  = existsb (fun r : list vec3 => bool_decide (r = [])) w.
Proof.
  induction w as [| x w IH]; [done |]. cbn [map existsb]. rewrite IH.
  f_equal. apply bool_decide_ext. destruct x as [| p x]; [done |].
  split; intros H; discriminate H.
Qed.

Lemma concatenate_moved (t : vec3) (w : list (list vec3)) :
  concatenate (map (map (fun p => add p t)) w)
    = option_map (map (fun p => add p t)) (concatenate w).
Proof.
  destruct w as [| r w]; [done |].
  unfold concatenate.
  change (map (map (fun p => add p t)) (r :: w))
    with (map (fun p => add p t) r :: map (map (fun p => add p t)) w) at 1.
  cbv beta iota.
  rewrite (empty_residue_moved t (r :: w)).
  destruct (existsb _ (r :: w)); [done |]. cbn [option_map].
  by rewrite concat_map.
Qed.

Lemma residue_pair_moved (t : vec3) (s n : list vec3) :
  residue_pair (map (fun p => add p t) s) (map (fun p => add p t) n)
    = residue_pair s n.
Proof. unfold residue_pair, try_block, except_block. by rewrite cdist_moved. Qed.

Lemma scan_seen_moved (t : vec3) (seen news : list (list vec3)) :
  scan_seen (map (map (fun p => add p t)) seen)
            (map (map (fun p => add p t)) news)
    = scan_seen seen news.
Proof.
  assert (Hnew : forall s,
    scan_new (map (fun p => add p t) s) (map (map (fun p => add p t)) news)
      = scan_new s news).
  { intros s. induction news as [| n news IH]; [done |].
    cbn [map scan_new]. by rewrite residue_pair_moved, IH. }
  induction seen as [| s seen IH]; [done |].
  cbn [map scan_seen]. by rewrite Hnew, IH.
Qed.

(** X20: both methods give the same answer when the two chains are moved
    by one and the same vector: they read the coordinates only through
    the distances between atoms. *)
Theorem clash_methods_moved (t : vec3) (current_chain last_chain : chain) :
  fst (clash_found_vectorized init
         (map (map (fun p => add p t)) current_chain)
         (map (map (fun p => add p t)) last_chain))
    = fst (clash_found_vectorized init current_chain last_chain) /\
  fst (clash_found init
         (map (map (fun p => add p t)) current_chain)
         (map (map (fun p => add p t)) last_chain))
    = fst (clash_found init current_chain last_chain).
Proof.
  unfold clash_found_vectorized, clash_found. cbn [fst]. split.
  - unfold vectorized. rewrite !length_map, firstn_map, skipn_map.
    rewrite !concatenate_moved.
    destruct (concatenate (take _ last_chain)) as [sv |]; [| done].
    destruct (concatenate (drop _ current_chain)) as [nv |]; [| done].
    cbn [option_map]. by rewrite cdist_moved.
  - rewrite !incremental_scan. unfold settled_window, new_window.
    rewrite !length_map, firstn_map, skipn_map. apply scan_seen_moved.
Qed.

End ClashValidatorFacts.

(** ** Python's str *)

Module PyStrFacts.
Import PyStr.

(** A word: not empty, no whitespace in it. *)
Lemma split_words_clean (s word : list ascii) :
  Forall (fun c => is_space c = false) word ->
  Forall (fun w => w <> [] /\ Forall (fun c => is_space c = false) w)
    (split_words s word).
Proof.
  revert word. induction s as [| c s IH]; intros word Hw; simpl.
  - destruct word as [| x word]; [done |]. constructor; [| done]. split.
    + intros E. apply (f_equal length) in E. rewrite length_rev in E. done.
    + by apply Forall_rev.
  - destruct (is_space c) eqn:Ec.
    + destruct word as [| x word]; [by apply IH |].
      constructor; [| by apply IH]. split.
      * intros E. apply (f_equal length) in E. rewrite length_rev in E. done.
      * by apply Forall_rev.
    + apply IH. by constructor.
Qed.

Lemma split_words_word (w word : list ascii) :
  Forall (fun c => is_space c = false) w -> (w <> [] \/ word <> []) ->
  split_words w word = [rev word ++ w].
Proof.
  revert word. induction w as [| c w IH]; intros word Hw Hne; simpl.
  - destruct word as [| x word]; [by destruct Hne |]. by rewrite app_nil_r.
  - apply Forall_cons in Hw as [Hc Hw]. rewrite Hc.
    rewrite IH by (done || by right). simpl. by rewrite <- app_assoc.
Qed.

Lemma lstrip_blanks (ws s : list ascii) :
  Forall (fun c => is_space c = true) ws -> lstrip (ws ++ s) = lstrip s.
Proof.
  induction 1 as [| c ws Hc _ IH]; [done |]. simpl. by rewrite Hc.
Qed.

Lemma lstrip_fixed_app (s x : list ascii) :
  s <> [] -> lstrip s = s -> lstrip (s ++ x) = s ++ x.
Proof.
  destruct s as [| c s]; [done |]. intros _ H. simpl in *.
  destruct (is_space c); [| done].
  exfalso. assert (Hlen : forall l, (length (lstrip l) <= length l)%nat).
  { induction l as [| a l IHl]; simpl; [lia |]. destruct (is_space a); simpl; lia. }
  specialize (Hlen s). rewrite H in Hlen. simpl in Hlen. lia.
Qed.

(** What lstrip takes away and what it leaves. *)
Lemma lstrip_spec (s : list ascii) :
  exists ws, s = ws ++ lstrip s /\ Forall (fun c => is_space c = true) ws /\
    match lstrip s with [] => True | c :: _ => is_space c = false end.
Proof.
  induction s as [| c s (ws & E & Hws & Hhead)]; [by exists [] |].
  simpl. destruct (is_space c) eqn:Ec.
  - exists (c :: ws). split_and!; [by rewrite E at 1 | by constructor | done].
  - by exists [].
Qed.

Lemma lstrip_keeps_last (y : list ascii) (c : ascii) :
  is_space c = false -> exists x, lstrip (y ++ [c]) = x ++ [c].
Proof.
  intros Hc. induction y as [| a y [x IH]]; simpl.
  - rewrite Hc. by exists [].
  - destruct (is_space a); [by exists x |]. by exists (a :: y).
Qed.

End PyStrFacts.

(** ** The command of a SubprocessTask *)

Module LibmulticoreFacts.
Import PyStr PyStrFacts Libmulticore.

Lemma foldl_extend {A B} (f : A -> list B) (acc : list B) (items : list A) :
  foldl (fun a x => a ++ f x) acc items = acc ++ concat (map f items).
Proof.
  revert acc. induction items as [| x items IH]; intros acc; simpl.
  - by rewrite app_nil_r.
  - by rewrite IH, <- app_assoc.
Qed.

Lemma set_cmd_exec_list (items : list (list ascii)) :
  set_cmd_exec (CommandList items) = concat (map split items).
Proof. unfold set_cmd_exec. by rewrite foldl_extend. Qed.

Lemma set_cmd_exec_words (c : command) :
  Forall (fun w => w <> [] /\ Forall (fun ch => is_space ch = false) w)
    (set_cmd_exec c).
Proof.
  destruct c as [s | items].
  - by apply split_words_clean.
  - rewrite set_cmd_exec_list. induction items as [| x items IH]; [done |].
    simpl. apply Forall_app. split; [| done]. by apply split_words_clean.
Qed.

(** X21: whatever cmd_exec is set to, a str or a list of str, the stored
    command is a list of words: none of them is empty, none holds a
    whitespace character, and put one after the other they are the
    characters of the input that are not whitespace, in their order. *)
Theorem cmd_exec_is_words (c : command) :
  Forall (fun w => w <> [] /\ Forall (fun ch => is_space ch = false) w)
    (set_cmd_exec c) /\
  concat (set_cmd_exec c)
    = filter (fun ch => is_space ch = false)
        (match c with CommandStr s => s | CommandList items => concat items end).
Proof.
  split; [apply set_cmd_exec_words |].
  assert (Hsplit : forall s word,
    Forall (fun ch => is_space ch = false) word ->
    concat (split_words s word)
      = rev word ++ filter (fun ch => is_space ch = false) s).
  { induction s as [| ch s IH]; intros word Hw; simpl.
    - destruct word; simpl; by rewrite ?app_nil_r.
    - rewrite filter_cons. destruct (is_space ch) eqn:E.
      + rewrite decide_False by done.
        destruct word as [| x word]; [by rewrite IH |].
        simpl concat. by rewrite IH.
      + rewrite decide_True by done. rewrite IH by (by constructor).
        simpl. by rewrite <- app_assoc. }
  destruct c as [s | items].
  - unfold set_cmd_exec, split. by rewrite Hsplit.
  - rewrite set_cmd_exec_list. induction items as [| x items IH]; [done |].
    simpl. rewrite concat_app, IH, filter_app. f_equal.
    unfold split. by rewrite Hsplit.
Qed.

Lemma concat_split_words (ws : list (list ascii)) :
  Forall (fun w => w <> [] /\ Forall (fun ch => is_space ch = false) w) ws ->
  concat (map split ws) = ws.
Proof.
  induction 1 as [| w ws [Hne Hw] _ IH]; [done |].
  simpl. unfold split at 1. rewrite split_words_word by (done || by left).
  simpl. by rewrite IH.
Qed.

(** X22: setting cmd_exec to the value it already has changes nothing,
    and a list with one str gives the same command as the str itself. *)
Theorem cmd_exec_set_again (c : command) (s : list ascii) :
  set_cmd_exec (CommandList (set_cmd_exec c)) = set_cmd_exec c /\
  set_cmd_exec (CommandList [s]) = set_cmd_exec (CommandStr s).
Proof.
  split.
  - rewrite set_cmd_exec_list. apply concat_split_words, set_cmd_exec_words.
  - rewrite set_cmd_exec_list. simpl. apply app_nil_r.
Qed.

End LibmulticoreFacts.

(** ** The formatters of libpdb *)

Module LibpdbFacts.
Import PyStr PyStrFacts Libpdb.

(** Whenever format_atom_name returns, it returns the name between blanks. *)
Lemma format_atom_name_padding (atom element name : list ascii) :
  format_atom_name atom element = Some name ->
  exists before after : nat,
    name = replicate before " "%char ++ atom ++ replicate after " "%char /\
    (before + length atom + after = Nat.max 4 (length atom))%nat.
Proof.
  unfold format_atom_name, ljust.
  destruct (bool_decide _).
  - destruct (decide (length atom < 4)%nat); intros [= <-].
    + exists 1%nat, (3 - length atom)%nat. split; [done | lia].
    + exists 0%nat, (4 - length atom)%nat. split; [done | lia].
  - destruct (decide (length atom = 2%nat)) as [E |]; [| done]. intros [= <-].
    exists 0%nat, 2%nat. rewrite E. simpl. rewrite app_nil_r.
    split; [done | lia].
Qed.

(** X23: format_atom_name raises PDBFormatError exactly for an element
    other than C, N, O and S with a name that is not two characters long;
    otherwise it returns the name with blanks before and after it, never
    cut, four characters wide unless the name itself is longer. *)
Theorem format_atom_name_spec (atom element : list ascii) :
  (format_atom_name atom element = None <->
     (element ∉ [["C"]; ["N"]; ["O"]; ["S"]]%char) /\ length atom <> 2%nat) /\
  (forall name, format_atom_name atom element = Some name ->
     length name = Nat.max 4 (length atom) /\
     exists before after : nat,
       name = replicate before " "%char ++ atom ++ replicate after " "%char).
Proof.
  split.
  - unfold format_atom_name. destruct (bool_decide _) eqn:E.
    + apply bool_decide_eq_true in E.
      destruct (decide (length atom < 4)%nat); split; try done; tauto.
    + apply bool_decide_eq_false in E.
      destruct (decide (length atom = 2%nat)); split; try done; tauto.
  - intros name Hname.
    destruct (format_atom_name_padding _ _ _ Hname) as (b & a & -> & Hlen).
    split; [| by exists b, a].
    rewrite !length_app, !length_replicate. lia.
Qed.

Lemma rstrip_app_blanks (s ws : list ascii) :
  Forall (fun c => is_space c = true) ws -> rstrip (s ++ ws) = rstrip s.
Proof.
  intros Hws. unfold rstrip. rewrite rev_app_distr.
  by rewrite lstrip_blanks by (by apply Forall_rev).
Qed.

Lemma blanks_are_space (n : nat) :
  Forall (fun c => is_space c = true) (replicate n " "%char).
Proof. induction n; simpl; by constructor. Qed.

(** X24: a name that neither begins nor ends with whitespace comes back
    from the formatted field by strip, which is how the ATOM record is
    read again. *)
Theorem format_atom_name_strip (atom element name : list ascii) :
  format_atom_name atom element = Some name ->
  lstrip atom = atom -> rstrip atom = atom ->
  strip name = atom.
Proof.
  intros Hname Hl Hr.
  destruct (format_atom_name_padding _ _ _ Hname) as (b & a & -> & _).
  unfold strip. rewrite lstrip_blanks by apply blanks_are_space.
  destruct atom as [| c atom].
  - simpl. rewrite <- (app_nil_r (replicate a _)).
    by rewrite lstrip_blanks by apply blanks_are_space.
  - rewrite lstrip_fixed_app by done.
    by rewrite rstrip_app_blanks by apply blanks_are_space.
Qed.

Lemma format_atom_name_strip_witness :
  strip [" "; "C"; "A"; " "]%char = ["C"; "A"]%char.
Proof.
  apply (format_atom_name_strip ["C"; "A"]%char ["C"]%char); reflexivity.
Defined.

(** X25: format_chainid raises IndexError exactly on a chain identifier
    that is all whitespace (or empty); otherwise it returns the first
    character of the identifier that is not whitespace. *)
Theorem format_chainid_spec (chain : list ascii) :
  (format_chainid chain = None <->
     Forall (fun c => is_space c = true) chain) /\
  (forall id, format_chainid chain = Some id ->
     exists ws c rest,
       chain = ws ++ c :: rest /\ Forall (fun c => is_space c = true) ws /\
       is_space c = false /\ id = [c]).
Proof.
  unfold format_chainid, strip.
  destruct (lstrip_spec chain) as (ws & E & Hws & Hhead).
  destruct (lstrip chain) as [| c rest] eqn:El.
  - rewrite app_nil_r in E. subst ws. split; [by split |]. done.
  - assert (Hr : exists tl, rstrip (c :: rest) = c :: tl).
    { unfold rstrip. simpl rev.
      destruct (lstrip_keeps_last (rev rest) c Hhead) as [x ->].
      rewrite rev_app_distr. simpl. by eexists. }
    destruct Hr as [tl ->]. split.
    + split; [done |]. intros Hall. rewrite E in Hall.
      apply Forall_app in Hall as [_ Hall]. apply Forall_cons in Hall as [Hc _].
      congruence.
    + intros id [= <-]. by exists ws, c, rest.
Qed.

Lemma startswith_spec (s sub : list ascii) :
  startswith s sub = true <-> exists rest, s = sub ++ rest.
Proof.
  revert s. induction sub as [| a sub IH]; intros s.
  - split; [by exists s | by destruct s].
  - destruct s as [| b s]; simpl.
    + split; [done | by intros [rest E]].
    + destruct (decide (a = b)) as [-> |].
      * rewrite IH. split; intros [rest E]; exists rest; [by rewrite E |].
        by injection E.
      * split; [done |]. intros [rest E]. by injection E.
Qed.

Lemma count_from_positive (sub s : list ascii) (skip : nat) :
  sub <> [] ->
  (0 < count_from sub s skip)%nat <-> exists a b, drop skip s = a ++ sub ++ b.
Proof.
  intros Hsub. revert skip. induction s as [| c s IH]; intros skip.
  - simpl. rewrite drop_nil. split; [lia |]. intros (a & b & E).
    destruct a; [destruct sub; [done | discriminate E] | discriminate E].
  - destruct skip as [| k]; [| simpl; apply IH].
    change (count_from sub (c :: s) 0) with
      (if startswith (c :: s) sub
       then S (count_from sub s (length sub - 1)) else count_from sub s 0).
    rewrite drop_0. destruct (startswith (c :: s) sub) eqn:Es.
    + split; [| lia]. intros _. apply startswith_spec in Es as [rest E].
      by exists [], rest.
    + rewrite IH, drop_0. split.
      * intros (a & b & E). exists (c :: a), b. by rewrite E.
      * intros ([| c' a] & b & E).
        -- assert (startswith (c :: s) sub = true); [| congruence].
           apply startswith_spec. by exists b.
        -- injection E as _ E. by exists a, b.
Qed.

(** X26: is_pdb holds exactly of the strings in which a line break is
    followed by "ATOM " somewhere; an ATOM record on the very first line
    of the data does not count. *)
Theorem is_pdb_spec (datastr : list ascii) :
  (is_pdb datastr = true <-> exists a b, datastr = a ++ ATOM_line ++ b) /\
  (forall rest, "010"%char ∉ rest ->
     is_pdb (["A"; "T"; "O"; "M"; " "]%char ++ rest) = false).
Proof.
  assert (Hiff : forall s,
    is_pdb s = true <-> exists a b, s = a ++ ATOM_line ++ b).
  { intros s. unfold is_pdb, count. simpl.
    rewrite Nat.ltb_lt.
    by rewrite (count_from_positive ATOM_line s 0 ltac:(done)), drop_0. }
  split; [apply Hiff |].
  intros rest Hn. apply not_true_is_false. intros H.
  apply Hiff in H as (a & b & E). apply Hn.
  assert (Hin : "010"%char ∈ ["A"; "T"; "O"; "M"; " "]%char ++ rest).
  { rewrite E. apply elem_of_app. right. apply elem_of_app. left.
    by apply elem_of_cons; left. }
  apply elem_of_app in Hin as [Hin | Hin]; [| done].
  rewrite !elem_of_cons, elem_of_nil in Hin.
  destruct Hin as [Hin | [Hin | [Hin | [Hin | [Hin | []]]]]]; discriminate Hin.
Qed.

End LibpdbFacts.

(** ** The loop filter of filtering_questions *)

Module FilteringQuestionsFacts.
Import FilteringQuestions.

Section Filter.

Context {V : Type}.

Lemma in_bounds_within (lo up : Z) (fragment : string) (data : V) :
  in_bounds (Some lo) (Some up) fragment =
  Some (bool_decide (within lo up (fragment, data))).
Proof.
  unfold in_bounds, within. simpl.
  repeat case_bool_decide; try done; lia.
Qed.

Lemma loop_ranges_within (items : list (string * V)) (lo up : Z)
    (result : gmap string V) :
  loop_ranges items (Some lo) (Some up) result =
  Some (list_to_map (rev (filter (within lo up) items)) ∪ result).
Proof.
  revert result. induction items as [| [fragment data] items IH]; intros result.
  - simpl. by rewrite (left_id_L ∅ (∪)).
  - cbn [loop_ranges]. rewrite (in_bounds_within lo up fragment data).
    case_bool_decide as Hw.
    + rewrite IH, filter_cons_True by done. simpl rev.
      rewrite list_to_map_app. simpl list_to_map.
      by rewrite insert_empty, <- (assoc_L (∪)), <- insert_union_singleton_l.
    + by rewrite IH, filter_cons_False by done.
Qed.

Lemma loop_ranges_raises (items : list (string * V)) (lo up : option Z)
    (result : gmap string V) :
  loop_ranges items lo up result = None <->
  exists fragment data,
    (fragment, data) ∈ items /\ in_bounds lo up fragment = None.
Proof.
  revert result. induction items as [| [fragment data] items IH]; intros result.
  - simpl. split; [done |]. intros (? & ? & H & _). by apply elem_of_nil in H.
  - cbn [loop_ranges]. destruct (in_bounds lo up fragment) as [[] |] eqn:E.
    + rewrite IH. split; intros (f & d & Hin & Hn).
      * exists f, d. split; [by apply elem_of_cons; right | done].
      * apply elem_of_cons in Hin as [[= -> ->] | Hin]; [congruence |].
        by exists f, d.
    + rewrite IH. split; intros (f & d & Hin & Hn).
      * exists f, d. split; [by apply elem_of_cons; right | done].
      * apply elem_of_cons in Hin as [[= -> ->] | Hin]; [congruence |].
        by exists f, d.
    + split; [| done]. intros _. exists fragment, data.
      split; [by apply elem_of_cons; left | done].
Qed.

(** X27: with two integer bounds that are not both 0, return_loops
    returns exactly the loop fragments whose length lies between the
    bounds, each with its data. *)
Theorem return_loops_in_range (loop_data : gmap string V) (lo up : Z) :
  lo <> 0%Z \/ up <> 0%Z ->
  return_loops loop_data (Some lo) (Some up) =
  Some (filter (within lo up) loop_data).
Proof.
  intros Hnz. unfold return_loops, return_loop_ranges, falsy.
  assert (bool_decide (lo = 0%Z) && bool_decide (up = 0%Z) = false) as ->.
  { apply andb_false_iff. rewrite !bool_decide_eq_false. tauto. }
  rewrite loop_ranges_within, (right_id_L ∅ (∪)). f_equal.
  rewrite map_filter_alt. apply list_to_map_proper.
  - rewrite <- Permutation_rev.
    apply (sublist_NoDup _ (map_to_list loop_data).*1).
    + apply NoDup_fst_map_to_list.
    + apply fmap_sublist, sublist_filter.
  - by rewrite <- Permutation_rev.
Qed.

(** X28: return_loops raises TypeError exactly when one bound is None, the
    other is an integer other than 0, and the loop reaches the comparison
    with None: without a lower bound on any loop fragment at all, without
    an upper bound on a fragment at least as long as the lower bound. In
    particular the bounds 0 and 0, like no bounds, raise nothing. *)
Theorem return_loops_raises (loop_data : gmap string V) (lo up : option Z) :
  return_loops loop_data lo up = None <->
  (lo = None /\ (exists u, up = Some u /\ u <> 0%Z) /\ loop_data <> ∅) \/
  (exists l, lo = Some l /\ l <> 0%Z /\ up = None /\
     exists fragment, is_Some (loop_data !! fragment) /\
       (l <= Z.of_nat (String.length fragment))%Z).
Proof.
  unfold return_loops, return_loop_ranges.
  destruct (falsy lo && falsy up) eqn:Ef.
  - split; [done |]. apply andb_true_iff in Ef as [El Eu].
    intros [(-> & (u & -> & Hu) & _) | (l & -> & Hl & -> & _)]; simpl in *.
    + by apply bool_decide_eq_true in Eu.
    + by apply bool_decide_eq_true in El.
  - rewrite loop_ranges_raises. apply andb_false_iff in Ef. split.
    + intros (f & d & Hin & Hn). apply elem_of_map_to_list in Hin.
      destruct lo as [l |]; simpl in *.
      * right. exists l. unfold in_bounds in Hn.
        case_bool_decide as Hle; [| done]. destruct up as [u |]; [done |].
        split_and!; try done.
        -- destruct Ef as [Ef | Ef]; [| done].
           by apply bool_decide_eq_false in Ef.
        -- exists f. split; [by exists d | done].
      * left. destruct Ef as [Ef | Ef]; [done |].
        destruct up as [u |]; [| done]. apply bool_decide_eq_false in Ef.
        split_and!; [done | by exists u |]. intros ->.
        by rewrite lookup_empty in Hin.
    + intros [(-> & (u & -> & Hu) & Hne) | (l & -> & Hl & -> & f & [d Hd] & Hle)].
      * apply map_choose in Hne as (f & d & Hd). exists f, d.
        split; [by apply elem_of_map_to_list | done].
      * exists f, d. split; [by apply elem_of_map_to_list |].
        unfold in_bounds. by rewrite bool_decide_eq_true_2.
Qed.

End Filter.

Lemma return_loops_in_range_witness :
  return_loops ({[ "GSG"%string := 7%Z; "G"%string := 8%Z ]} : gmap string Z)
    (Some 2%Z) (Some 3%Z) = Some (filter (within 2 3) ({[ "GSG"%string := 7%Z; "G"%string := 8%Z ]} : gmap string Z)).
Proof.
  apply (return_loops_in_range (V := Z)). left. lia.
Defined.

End FilteringQuestionsFacts.
